(** * reddit-wallpaper: the selection engine of [src/index.js]

    A shallow embedding of the functions that turn reddit listings into one
    wallpaper link: the two regular expressions ([matchFile],
    [parseResolution]), the scoring functions ([heat], [controversy]), the
    filter of [selectWallpaperLink], the fold of [selectLink] and the
    existence probe ([fileExists], [urlFilePath]), followed by the
    properties of the specification that were checked against them. *)

From Stdlib Require Import ZArith NArith List Bool String Ascii Lia.
From Stdlib Require Import Reals Lra.
Import ListNotations.

Set Implicit Arguments.

(** ** Strings

    A JavaScript string is a sequence of UTF-16 code units. *)

Definition jsstring := list N.

(** [str "png"] is the JavaScript literal ['png'] (ASCII literals only). *)
Definition str (s : string) : jsstring :=
  List.map N_of_ascii (list_ascii_of_string s).

Fixpoint str_eqb (a b : jsstring) : bool :=
  match a, b with
  | [], [] => true
  | x :: a', y :: b' => N.eqb x y && str_eqb a' b'
  | _, _ => false
  end.

Definition in_range (lo hi c : N) : bool := (N.leb lo c && N.leb c hi)%bool.

(** [\d] *)
Definition is_digit (c : N) : bool := in_range 48 57 c.
Definition is_upper (c : N) : bool := in_range 65 90 c.
Definition is_lower (c : N) : bool := in_range 97 122 c.

(** [\w]: [A-Za-z0-9_].  Under the [i] flag without the [u] flag no code unit
    outside ASCII canonicalizes to a member of this class. *)
Definition is_word (c : N) : bool :=
  (is_upper c || is_lower c || is_digit c || N.eqb c 95)%bool.

(** [\s]: the WhiteSpace and LineTerminator code units of ECMAScript. *)
Definition is_space (c : N) : bool :=
  (in_range 9 13 c || N.eqb c 32 || N.eqb c 160 || N.eqb c 5760
   || in_range 8192 8202 c || N.eqb c 8232 || N.eqb c 8233 || N.eqb c 8239
   || N.eqb c 8287 || N.eqb c 12288 || N.eqb c 65279)%bool.

(** [[\w,\s-]] *)
Definition is_name (c : N) : bool :=
  (is_word c || N.eqb c 44 || is_space c || N.eqb c 45)%bool.

(** [[×x\*]] under the [i] flag: U+00D7, [x], [X] and [*]. *)
Definition is_times (c : N) : bool :=
  (N.eqb c 215 || N.eqb c 120 || N.eqb c 88 || N.eqb c 42)%bool.

(** [[a-z0-9_]]: the word characters that are not upper-case letters. *)
Definition is_lower_word (c : N) : bool :=
  (is_lower c || is_digit c || N.eqb c 95)%bool.

(** ASCII part of [String.prototype.toLowerCase]. *)
Definition lower_ascii (c : N) : N := if is_upper c then (c + 32)%N else c.

Definition is_ascii (c : N) : bool := N.ltb c 128.

(** [s.toLowerCase()].  On a string of ASCII code units the Unicode case
    mapping is the ASCII one; the mapping of every other string is that of
    the Unicode tables, which the program takes from the engine
    ([unicode_lower]). *)
Definition toLowerCase (unicode_lower : jsstring -> jsstring) (s : jsstring)
  : jsstring :=
  if forallb is_ascii s then List.map lower_ascii s else unicode_lower s.

(** ** Integer-valued JavaScript values

    The numeric fields of a listing entry ([score], [ups], [downs],
    [created_utc]) are integers, or [undefined] when the entry lacks
    them. *)

Inductive jsint : Type :=
| JUndefined
| JNaN
| JInt (z : Z).

(** [!!v] *)
Definition truthy (v : jsint) : bool :=
  match v with
  | JInt z => negb (Z.eqb z 0)
  | _ => false
  end.

(** [a > b], [a >= b], [a < b] after [ToNumber]: every comparison with
    [undefined] or [NaN] is false. *)
Definition jgt (a b : jsint) : bool :=
  match a, b with
  | JInt x, JInt y => Z.ltb y x
  | _, _ => false
  end.

Definition jge (a b : jsint) : bool :=
  match a, b with
  | JInt x, JInt y => Z.leb y x
  | _, _ => false
  end.

Definition jlt (a b : jsint) : bool := jgt b a.

(** ** Regular expressions

    The fragment of the language of JavaScript regular expressions that
    the two expressions of the program are written in, with the
    backtracking semantics of ECMAScript: a matcher takes the input that
    is left and a continuation, and a greedy repetition offers the
    continuation its longest run first and shorter ones after. *)

Inductive regex : Type :=
| Chars (p : N -> bool)     (* one code unit: a literal or a class *)
| Eos                       (* [$] *)
| Star (p : N -> bool)      (* [c*] for a class or literal [c] *)
| Plus (p : N -> bool)      (* [c+] *)
| Cat (a b : regex)         (* [ab] *)
| Or (a b : regex)          (* [a|b] *)
| Capture (a : regex).      (* [(a)] *)

(** A literal code unit. *)
Definition lit (c : N) : regex := Chars (N.eqb c).

(** Greedy [c*]: the continuation gets the text matched and the input
    left, for the longest run first. *)
Fixpoint many (A : Type) (p : N -> bool) (s : jsstring)
  (k : jsstring -> jsstring -> option A) : option A :=
  match s with
  | c :: r =>
      if p c then
        match many p r (fun m t => k (c :: m) t) with
        | Some x => Some x
        | None => k [] s
        end
      else k [] s
  | [] => k [] s
  end.

(** [run r s caps k]: match [r] at the start of [s]; on success the
    continuation gets the text matched, the input left and the groups
    captured so far, in the order of their opening parentheses (no group of
    the program is nested in another or repeated). *)
Fixpoint run (A : Type) (r : regex) (s : jsstring) (caps : list jsstring)
  (k : jsstring -> jsstring -> list jsstring -> option A) : option A :=
  match r with
  | Chars p =>
      match s with
      | c :: t => if p c then k [c] t caps else None
      | [] => None
      end
  | Eos =>
      match s with
      | [] => k [] s caps
      | _ :: _ => None
      end
  | Star p => many p s (fun m t => k m t caps)
  | Plus p =>
      match s with
      | c :: t =>
          if p c then many p t (fun m t' => k (c :: m) t' caps) else None
      | [] => None
      end
  | Cat a b =>
      run a s caps (fun ma t caps' =>
        run b t caps' (fun mb t' caps'' => k (ma ++ mb) t' caps''))
  | Or a b =>
      match run a s caps k with
      | Some x => Some x
      | None => run b s caps k
      end
  | Capture a => run a s caps (fun m t caps' => k m t (caps' ++ [m]))
  end.

(** One attempt at a start position; the result is the match array: the
    text matched, then the groups. *)
Definition attempt (r : regex) (s : jsstring) : option (list jsstring) :=
  run r s [] (fun m _ caps => Some (m :: caps)).

(** [RegExp.prototype.exec] without the [g] flag: the attempt is made at
    every start position from the left, the end of the input included, and
    the first success is the result ([None] is [null]). *)
Fixpoint search (A : Type) (attempt : jsstring -> option A) (s : jsstring)
  : option A :=
  match attempt s with
  | Some m => Some m
  | None =>
      match s with
      | [] => None
      | _ :: r => search attempt r
      end
  end.

(** [s.match(r)] for an expression without the [g] flag. *)
Definition match_ (r : regex) (s : jsstring) : option (list jsstring) :=
  search (attempt r) s.

(** [/([\w,\s-]+)\.([\w]+)(\?|$|#)/i] *)
Definition file_regex : regex :=
  Cat (Capture (Plus is_name))
   (Cat (lit 46)
    (Cat (Capture (Plus is_word))
         (Capture (Or (lit 63) (Or Eos (lit 35)))))).

(** [/\[\s*(\d+)\s*[×x\*]\s*(\d+)\s*\]/i] *)
Definition resolution_regex : regex :=
  Cat (lit 91)
   (Cat (Star is_space)
    (Cat (Capture (Plus is_digit))
     (Cat (Star is_space)
      (Cat (Chars is_times)
       (Cat (Star is_space)
        (Cat (Capture (Plus is_digit))
         (Cat (Star is_space) (lit 93)))))))).

(** *** The same attempts by maximal runs

    In both expressions every greedy run is followed by something no
    member of its class can match: the code unit after [[\w,\s-]+] must be
    [.], the one after [[\w]+] must be [?], [#] or the end of the input,
    and so on.  Giving back part of a run can therefore never succeed, and
    an attempt is decided by the maximal runs, which [span] computes
    (lemmas [attempt_file_regex] and [attempt_resolution_regex]). *)

Fixpoint span (p : N -> bool) (s : jsstring) : jsstring * jsstring :=
  match s with
  | c :: r =>
      if p c then let (a, b) := span p r in (c :: a, b) else ([], s)
  | [] => ([], [])
  end.

(** One attempt of [file_regex]. *)
Definition file_attempt (s : jsstring) : option (list jsstring) :=
  let (name, r1) := span is_name s in
  match name, r1 with
  | _ :: _, dot :: r2 =>
      if N.eqb dot 46 then
        let (ext, r3) := span is_word r2 in
        match ext with
        | [] => None
        | _ :: _ =>
            match r3 with
            | [] => Some [name ++ dot :: ext; name; ext; []]
            | c :: _ =>
                if (N.eqb c 63 || N.eqb c 35)%bool
                then Some [name ++ dot :: ext ++ [c]; name; ext; [c]]
                else None
            end
        end
      else None
  | _, _ => None
  end.

(** One attempt of [resolution_regex]. *)
Definition resolution_attempt (s : jsstring) : option (list jsstring) :=
  match s with
  | open :: r0 =>
      if N.eqb open 91 then
        let (s1, r1) := span is_space r0 in
        let (w, r2) := span is_digit r1 in
        match w with
        | [] => None
        | _ :: _ =>
            let (s2, r3) := span is_space r2 in
            match r3 with
            | times :: r4 =>
                if is_times times then
                  let (s3, r5) := span is_space r4 in
                  let (h, r6) := span is_digit r5 in
                  match h with
                  | [] => None
                  | _ :: _ =>
                      let (s4, r7) := span is_space r6 in
                      match r7 with
                      | close :: _ =>
                          if N.eqb close 93
                          then Some [open :: s1 ++ w ++ s2 ++ times :: s3
                                       ++ h ++ s4 ++ [close];
                                     w; h]
                          else None
                      | [] => None
                      end
                  end
                else None
            | [] => None
            end
        end
      else None
  | [] => None
  end.

(** ** [parseInt]

    [parseInt(s)] with no radix: leading white space is dropped, then an
    optional sign, then an optional [0x]/[0X] prefix (radix 16, otherwise
    10); the value is that of the longest run of digits of the radix, and
    [NaN] when the run is empty.

    The result is a double.  An integer below 2^53 is its own double; a
    larger one is rounded to 53 significant bits, to the nearest and to
    the even one of two that are as near; what rounds to 2^1024 or beyond
    is [Infinity].  So a number that [parseInt] gives, or that a
    resolution holds, is one of the values above or an infinity.  (The
    language lets an engine zero the decimal digits after the twentieth
    before it rounds; Node rounds the value of all digits, as here.) *)

Inductive jsnumber : Type :=
| Num (v : jsint)
| PosInfinity
| NegInfinity.

Coercion Num : jsint >-> jsnumber.

(** [a >= b] after [ToNumber]. *)
Definition number_ge (a b : jsnumber) : bool :=
  match a, b with
  | Num x, Num y => jge x y
  | PosInfinity, Num (JInt _) => true
  | PosInfinity, PosInfinity => true
  | PosInfinity, NegInfinity => true
  | Num (JInt _), NegInfinity => true
  | NegInfinity, NegInfinity => true
  | _, _ => false
  end.

(** The integer with at most 53 significant bits nearest to [z >= 0]. *)
Definition nearest_double (z : Z) : Z :=
  let bits := (Z.log2 z + 1)%Z in
  if Z.leb bits 53 then z
  else
    let shift := (bits - 53)%Z in
    let q := Z.shiftr z shift in
    let r := (z - Z.shiftl q shift)%Z in
    let half := Z.shiftl 1 (shift - 1) in
    let up := (Z.ltb half r || (Z.eqb half r && Z.odd q))%bool in
    Z.shiftl (if up then q + 1 else q)%Z shift.

(** The double of an integer. *)
Definition to_double (z : Z) : jsnumber :=
  let m := nearest_double (Z.abs z) in
  if Z.leb (2 ^ 1024) m
  then (if Z.ltb z 0 then NegInfinity else PosInfinity)
  else Num (JInt (Z.sgn z * m)).

Definition digit_value (c : N) : Z :=
  if is_digit c then Z.of_N c - 48
  else if is_lower c then Z.of_N c - 87
  else Z.of_N c - 55.

Definition is_radix_digit (radix : Z) (c : N) : bool :=
  ((is_digit c || is_lower c || is_upper c) && Z.ltb (digit_value c) radix)%bool.

Definition digits_value (radix : Z) (ds : jsstring) : Z :=
  fold_left (fun acc c => acc * radix + digit_value c)%Z ds 0%Z.

Definition strip_sign (s : jsstring) : Z * jsstring :=
  match s with
  | c :: r =>
      if N.eqb c 45 then ((-1)%Z, r)
      else if N.eqb c 43 then (1%Z, r)
      else (1%Z, s)
  | [] => (1%Z, s)
  end.

Definition strip_radix_prefix (s : jsstring) : Z * jsstring :=
  match s with
  | zero :: x :: r =>
      if (N.eqb zero 48 && (N.eqb x 120 || N.eqb x 88))%bool
      then (16%Z, r) else (10%Z, s)
  | _ => (10%Z, s)
  end.

Definition parseInt (s : jsstring) : jsnumber :=
  let s1 := snd (span is_space s) in
  let (sign, s2) := strip_sign s1 in
  let (radix, s3) := strip_radix_prefix s2 in
  match fst (span (is_radix_digit radix) s3) with
  | [] => Num JNaN
  | ds => to_double (sign * digits_value radix ds)
  end.

(** ** [parseResolution] (lines 204-212) *)

Module Resolution.
Record t : Type := make { width : jsnumber; height : jsnumber }.
End Resolution.

(** [title.match(re)]; [None] is [null]. *)
Definition match_resolution (title : jsstring) : option (list jsstring) :=
  match_ resolution_regex title.

(** [m[i]] for an index inside the array. *)
Definition item (m : list jsstring) (i : nat) : jsstring := nth i m [].

(** [None] is the [undefined] of a function that falls off its end. *)
Definition parseResolution (title : jsstring) : option Resolution.t :=
  match match_resolution title with
  | Some m =>
      if Nat.ltb 2 (List.length m)
      then Some (Resolution.make (parseInt (item m 1)) (parseInt (item m 2)))
      else None
  | None => None
  end.

(** ** Numbers

    The derived rankings ([heat], [controversy]) are computed with
    division, [Math.log10], [Math.pow] and [Math.round].  A number is
    [NaN], an infinity or a real; finite arithmetic is exact (the rounding
    of IEEE doubles is not modelled) and the two zeros are one, which no
    comparison of the program can tell apart. *)

Inductive num : Type :=
| NaN
| PosInf
| NegInf
| Fin (r : R).

Definition ToNumber (v : jsint) : num :=
  match v with
  | JInt z => Fin (IZR z)
  | JUndefined | JNaN => NaN
  end.

Definition is_neg (x : R) : bool := if Rlt_dec x 0 then true else false.
Definition is_pos (x : R) : bool := if Rlt_dec 0 x then true else false.
Definition is_zero (x : R) : bool := if Req_dec_T x 0 then true else false.
Definition signed_inf (positive : bool) : num :=
  if positive then PosInf else NegInf.

Definition n_neg (a : num) : num :=
  match a with
  | NaN => NaN
  | PosInf => NegInf
  | NegInf => PosInf
  | Fin x => Fin (- x)
  end.

Definition n_add (a b : num) : num :=
  match a, b with
  | NaN, _ | _, NaN => NaN
  | PosInf, NegInf | NegInf, PosInf => NaN
  | PosInf, _ | _, PosInf => PosInf
  | NegInf, _ | _, NegInf => NegInf
  | Fin x, Fin y => Fin (x + y)
  end.

Definition n_sub (a b : num) : num := n_add a (n_neg b).

Definition n_mul (a b : num) : num :=
  match a, b with
  | NaN, _ | _, NaN => NaN
  | PosInf, PosInf | NegInf, NegInf => PosInf
  | PosInf, NegInf | NegInf, PosInf => NegInf
  | PosInf, Fin y | Fin y, PosInf =>
      if is_zero y then NaN else signed_inf (negb (is_neg y))
  | NegInf, Fin y | Fin y, NegInf =>
      if is_zero y then NaN else signed_inf (is_neg y)
  | Fin x, Fin y => Fin (x * y)
  end.

Definition n_div (a b : num) : num :=
  match a, b with
  | NaN, _ | _, NaN => NaN
  | (PosInf | NegInf), (PosInf | NegInf) => NaN
  | PosInf, Fin y => signed_inf (negb (is_neg y))
  | NegInf, Fin y => signed_inf (is_neg y)
  | Fin _, (PosInf | NegInf) => Fin 0
  | Fin x, Fin y =>
      if is_zero y
      then if is_zero x then NaN else signed_inf (negb (is_neg x))
      else Fin (x / y)
  end.

(** [a > b] *)
Definition n_gt (a b : num) : bool :=
  match a, b with
  | NaN, _ | _, NaN => false
  | _, PosInf => false
  | PosInf, _ => true
  | NegInf, _ => false
  | Fin _, NegInf => true
  | Fin x, Fin y => if Rlt_dec y x then true else false
  end.

Definition Math_max (a b : num) : num :=
  match a, b with
  | NaN, _ | _, NaN => NaN
  | _, _ => if n_gt a b then a else b
  end.

Definition Math_log10 (a : num) : num :=
  match a with
  | NaN | NegInf => NaN
  | PosInf => PosInf
  | Fin x =>
      if is_neg x then NaN
      else if is_zero x then NegInf
      else Fin (ln x / ln 10)
  end.

(** [Math.round] takes one argument: the nearest integer, a tie going up.
    A call may pass more; they are evaluated and dropped ([ignored]). *)
Definition Math_round (a : num) (ignored : num) : num :=
  match a with
  | Fin x => Fin (IZR (Int_part (x + / 2)))
  | _ => a
  end.

Definition is_integer (y : R) : bool := is_zero (frac_part y).

Definition Rabs_compare_1 (x : R) : comparison :=
  if Rlt_dec 1 (Rabs x) then Gt
  else if Rlt_dec (Rabs x) 1 then Lt
  else Eq.

(** [Math.pow], case by case as ECMAScript's [Number::exponentiate]. *)
Definition Math_pow (base exponent : num) : num :=
  match exponent with
  | NaN => NaN
  | PosInf =>
      match base with
      | NaN => NaN
      | PosInf | NegInf => PosInf
      | Fin x =>
          match Rabs_compare_1 x with
          | Gt => PosInf
          | Eq => NaN
          | Lt => Fin 0
          end
      end
  | NegInf =>
      match base with
      | NaN => NaN
      | PosInf | NegInf => Fin 0
      | Fin x =>
          match Rabs_compare_1 x with
          | Gt => Fin 0
          | Eq => NaN
          | Lt => PosInf
          end
      end
  | Fin y =>
      if is_zero y then Fin 1
      else
        match base with
        | NaN => NaN
        | PosInf => if is_pos y then PosInf else Fin 0
        | NegInf =>
            if is_pos y
            then if (is_integer y && Z.odd (Int_part y))%bool
                 then NegInf else PosInf
            else Fin 0
        | Fin x =>
            if is_zero x then (if is_pos y then Fin 0 else PosInf)
            else if is_pos x then Fin (Rpower x y)
            else if is_integer y
            then Fin (if Z.odd (Int_part y)
                      then - Rpower (- x) y else Rpower (- x) y)
            else NaN
        end
  end.

(** ** Links (lines 78-102)

    A link is the object the normalizer builds from a listing entry.  A
    property that an object lacks reads as [undefined]: [None] for the
    strings and the resolution, [JUndefined] for the numbers, so that
    [defaultLink], which has four properties only, is a link too. *)

Module Link.
Record t : Type := make {
  url : option jsstring;
  subreddit : option jsstring;
  permalink : option jsstring;
  title : option jsstring;
  author : option jsstring;
  score : jsint;
  ups : jsint;
  downs : jsint;
  createdUtc : jsint;
  domain : option jsstring;
  type : option jsstring;
  resolution : option Resolution.t
}.
End Link.

Definition defaultLink : Link.t :=
  {| Link.url := None; Link.subreddit := None; Link.permalink := None;
     Link.title := None; Link.author := None;
     Link.score := JInt 0; Link.ups := JInt 0; Link.downs := JInt 0;
     Link.createdUtc := JInt 0;
     Link.domain := None; Link.type := None; Link.resolution := None |}.

(** ** Scoring (lines 148-173) *)

Definition heat (link : Link.t) : num :=
  let order := Math_log10 (Math_max (ToNumber (Link.score link)) (Fin 1)) in
  let sign :=
    if jgt (Link.score link) (JInt 0) then Fin 1
    else if jlt (Link.score link) (JInt 0) then Fin (-1)
    else Fin 0 in
  let seconds := n_sub (ToNumber (Link.createdUtc link)) (Fin 1134028003) in
  Math_round (n_add (n_mul sign order) (n_div seconds (Fin 45000))) (Fin 7).

Definition controversy (link : Link.t) : num :=
  if (jlt (Link.downs link) (JInt 0) || jlt (Link.ups link) (JInt 0))%bool
  then Fin 0
  else
    let magnitude := n_add (ToNumber (Link.ups link)) (ToNumber (Link.downs link)) in
    let balance :=
      if jgt (Link.ups link) (Link.downs link)
      then n_div (ToNumber (Link.downs link)) (ToNumber (Link.ups link))
      else n_div (ToNumber (Link.ups link)) (ToNumber (Link.downs link)) in
    Math_pow magnitude balance.

(** ** Errors

    A function either returns or throws; a promise, once settled, is
    either fulfilled or rejected.  Every promise of the program is consumed
    by a [then] of a chain that starts in [run], where a callback that
    throws and a callback that returns a rejected promise give the same
    rejected promise; one type serves both. *)

Inductive error : Type :=
| TypeError
| Error (message : jsstring)
| FsError (code : jsstring).

Inductive result (A : Type) : Type :=
| Ok (a : A)
| Throw (e : error).

Arguments Ok {A} a.
Arguments Throw {A} e.

Definition bind (A B : Type) (r : result A) (k : A -> result B) : result B :=
  match r with
  | Ok a => k a
  | Throw e => Throw e
  end.

Declare Scope result_scope.
Delimit Scope result_scope with result.
Notation "x <- r ;; k" := (bind r (fun x => k))
  (at level 61, r at next level, right associativity) : result_scope.
Local Open Scope result_scope.

(** ** The fold (lines 129-146) *)

Definition selectLink (sort : jsstring)
  : result (Link.t -> Link.t -> Link.t) :=
  if str_eqb sort (str "top") then
    Ok (fun x y => if jgt (Link.score x) (Link.score y) then x else y)
  else if str_eqb sort (str "hot") then
    Ok (fun x y => if n_gt (heat x) (heat y) then x else y)
  else if str_eqb sort (str "controversial") then
    Ok (fun x y => if n_gt (controversy x) (controversy y) then x else y)
  else if str_eqb sort (str "new") then
    Ok (fun x y => if jgt (Link.createdUtc x) (Link.createdUtc y) then x else y)
  else Throw (Error (str "Unknown sort " ++ sort)).

(** [links.reduce(selectLink(sort), defaultLink)] *)
Definition reduce_links (sort : jsstring) (links : list Link.t)
  : result Link.t :=
  f <- selectLink sort ;;
  Ok (fold_left f links defaultLink).

(** ** Objects the program reads *)

(** [fs.Stats], as far as the program looks at it. *)
Module Stats.
Record t : Type := make { isFile : bool; isDirectory : bool }.
End Stats.

(** The configuration object. [None] is a property that is absent or holds
    [undefined]/[null]; [files] is not among the defaults. *)
Module Options.
Record t : Type := make {
  subreddits : list jsstring;
  sort : jsstring;
  from : jsstring;
  score : jsint;
  domains : option (list jsstring);
  types : option (list jsstring);
  shuffle : bool;
  directory : jsstring;
  resolution : option Resolution.t;
  files : option (list jsstring)
}.
End Options.

(** The object a caller passes to [main]: every key may be missing
    (outer [None]). *)
Module UserOptions.
Record t : Type := make {
  subreddits : option (list jsstring);
  sort : option jsstring;
  from : option jsstring;
  score : option jsint;
  domains : option (option (list jsstring));
  types : option (option (list jsstring));
  shuffle : option bool;
  directory : option jsstring;
  resolution : option (option Resolution.t);
  files : option (option (list jsstring))
}.
End UserOptions.

(** The listing payload: [{kind, data: {children: [{kind, data}]}}]. *)
Module Data.
Record t : Type := make {
  url : option jsstring;
  subreddit : option jsstring;
  permalink : option jsstring;
  title : option jsstring;
  author : option jsstring;
  score : jsint;
  ups : jsint;
  downs : jsint;
  created_utc : jsint;
  domain : option jsstring
}.
End Data.

Module Thing.
Record t : Type := make { kind : option jsstring; data : option Data.t }.
End Thing.

Module ListingData.
Record t : Type := make { children : option (list Thing.t) }.
End ListingData.

Module Subreddit.
Record t : Type := make { kind : option jsstring; data : option ListingData.t }.
End Subreddit.

(** ** Helpers of the language *)

(** [this.m(...)]: a method call on [undefined] throws a [TypeError]. *)
Definition method (A B : Type) (this : option A) (m : A -> B) : result B :=
  match this with
  | Some a => Ok (m a)
  | None => Throw TypeError
  end.

(** [p.then(f)] and [p.catch(h)] on a settled promise. *)
Definition then_ (A B : Type) (p : result A) (f : A -> result B) : result B :=
  bind p f.

Definition catch_ (A : Type) (p : result A) (h : error -> result A) : result A :=
  match p with
  | Ok a => Ok a
  | Throw e => h e
  end.

Definition Promise_resolve (A : Type) (a : A) : result A := Ok a.

(** [array.filter(f)] with a callback that may throw, and bluebird's
    [Promise.filter(array, f)], whose callback returns a promise: the
    elements are kept in order, and the first callback that throws or
    rejects settles the whole. *)
Fixpoint filter_result (A : Type) (f : A -> result bool) (l : list A)
  : result (list A) :=
  match l with
  | [] => Ok []
  | a :: r =>
      b <- f a ;;
      r' <- filter_result f r ;;
      Ok (if b then a :: r' else r')
  end.

Definition Promise_filter := filter_result.

Fixpoint map_result (A B : Type) (f : A -> result B) (l : list A)
  : result (list B) :=
  match l with
  | [] => Ok []
  | a :: r =>
      b <- f a ;;
      r' <- map_result f r ;;
      Ok (b :: r')
  end.

(** [array.indexOf(x)]: strict equality, [-1] when absent.  No element of
    an array of strings equals [undefined]. *)
Fixpoint indexOf_from (l : list jsstring) (x : jsstring) (i : Z) : Z :=
  match l with
  | [] => (-1)%Z
  | y :: r => if str_eqb y x then i else indexOf_from r x (i + 1)%Z
  end.

Definition indexOf (l : list jsstring) (x : option jsstring) : Z :=
  match x with
  | Some s => indexOf_from l s 0%Z
  | None => (-1)%Z
  end.

Section Engine.

(** The collaborators: the engine's Unicode case mapping, [path.join],
    [expand-tilde], the user's home directory and the state of the file
    system as [fs.statAsync] shows it.  The directory is not written
    during a selection, so one [statAsync] serves all probes of a run,
    in whatever order they settle. *)
Variable unicode_lower : jsstring -> jsstring.
Variable path_join : jsstring -> jsstring -> jsstring.
Variable expandTilde : jsstring -> jsstring.
Variable home : jsstring.
Variable statAsync : jsstring -> result Stats.t.

Local Abbreviation lower := (toLowerCase unicode_lower).

(** *** [matchFile], [parseType], [urlFilePath] (lines 182-202) *)

(** [undefined] is the result when nothing matches ([None]). *)
Definition matchFile (url : option jsstring)
  : result (option (list jsstring)) :=
  m <- method url (match_ file_regex) ;;
  match m with
  | Some a => if Nat.ltb 1 (List.length a) then Ok (Some a) else Ok None
  | None => Ok None
  end.

Definition parseType (url : option jsstring) : result jsstring :=
  m <- matchFile url ;;
  match m with
  | Some a =>
      if Nat.ltb 2 (List.length a) then Ok (lower (item a 2)) else Ok []
  | None => Ok []
  end.

(** [match.length] is read with no test of [match]: on [undefined] the
    read throws. *)
Definition urlFilePath (url : option jsstring) (directory : jsstring)
  : result (option jsstring) :=
  m <- matchFile url ;;
  match m with
  | Some a =>
      if Nat.ltb 2 (List.length a)
      then Ok (Some (path_join directory (item a 1 ++ 46%N :: item a 2)))
      else Ok None
  | None => Throw TypeError
  end.

(** *** [fileExists] (lines 233-239) *)

Definition fileExists (filePath : option jsstring) : result bool :=
  match filePath with
  | Some ((_ :: _) as p) =>
      catch_ (then_ (statAsync p) (fun file => Ok (Stats.isFile file)))
             (fun _ => Ok false)
  | Some [] | None => Promise_resolve false
  end.

(** *** [assignConfig] (lines 14-24, 53-67) *)

Definition defaults : Options.t :=
  {| Options.subreddits := [str "wallpaper"; str "wallpapers"; str "castles"];
     Options.sort := str "top";
     Options.from := str "month";
     Options.score := JInt 100;
     Options.domains := Some [str "i.imgur.com"; str "imgur.com"];
     Options.types := Some [str "png"; str "jpg"; str "jpeg"];
     Options.shuffle := true;
     Options.directory := path_join home (str ".reddit-wallpaper");
     Options.resolution := Some (Resolution.make (JInt 1920) (JInt 1080));
     Options.files := None |}.

Definition own (A : Type) (source : option A) (target : A) : A :=
  match source with
  | Some v => v
  | None => target
  end.

(** [Object.assign(target, source)]: every own property of the source
    replaces the target's. *)
Definition Object_assign (target : Options.t) (source : UserOptions.t)
  : Options.t :=
  {| Options.subreddits := own (UserOptions.subreddits source) (Options.subreddits target);
     Options.sort := own (UserOptions.sort source) (Options.sort target);
     Options.from := own (UserOptions.from source) (Options.from target);
     Options.score := own (UserOptions.score source) (Options.score target);
     Options.domains := own (UserOptions.domains source) (Options.domains target);
     Options.types := own (UserOptions.types source) (Options.types target);
     Options.shuffle := own (UserOptions.shuffle source) (Options.shuffle target);
     Options.directory := own (UserOptions.directory source) (Options.directory target);
     Options.resolution := own (UserOptions.resolution source) (Options.resolution target);
     Options.files := own (UserOptions.files source) (Options.files target) |}.

(** The first argument is the object [defaults] as it is when the call
    is made: [Object.assign] writes into it, and the result is that same
    object. *)
Definition assignConfig (defaults : Options.t) (options : UserOptions.t)
  : Options.t :=
  let options := Object_assign defaults options in
  {| Options.subreddits := Options.subreddits options;
     Options.sort := Options.sort options;
     Options.from := Options.from options;
     Options.score := Options.score options;
     Options.domains := option_map (List.map lower) (Options.domains options);
     Options.types := Options.types options;
     Options.shuffle := Options.shuffle options;
     Options.directory :=
       if existsb (N.eqb 126) (Options.directory options)
       then expandTilde (Options.directory options)
       else Options.directory options;
     Options.resolution := Options.resolution options;
     Options.files := option_map (List.map lower) (Options.files options) |}.

(** *** [selectWallpaperLink] (lines 85-127) *)

(** The object literal of lines 89-102. *)
Definition candidate (data : Data.t) : result Link.t :=
  domain <- method (Data.domain data) lower ;;
  type <- parseType (Data.url data) ;;
  resolution <- method (Data.title data) parseResolution ;;
  Ok {| Link.url := Data.url data;
        Link.subreddit := Data.subreddit data;
        Link.permalink := Data.permalink data;
        Link.title := Data.title data;
        Link.author := Data.author data;
        Link.score := Data.score data;
        Link.ups := Data.ups data;
        Link.downs := Data.downs data;
        Link.createdUtc := Data.created_utc data;
        Link.domain := Some domain;
        Link.type := Some (lower type);
        Link.resolution := resolution |}.

(** Line 89: [link.kind.toLowerCase() === 't3' && link.data]. *)
Definition is_link (link : Thing.t) : result bool :=
  kind <- method (Thing.kind link) lower ;;
  Ok (str_eqb kind (str "t3") &&
      match Thing.data link with Some _ => true | None => false end)%bool.

Definition links_of_listing (children : list Thing.t) : result (list Link.t) :=
  things <- filter_result is_link children ;;
  map_result
    (fun link =>
       match Thing.data link with
       | Some data => candidate data
       | None => Throw TypeError
       end)
    things.

(** Line 87: [subreddit.kind === 'Listing' && subreddit.data &&
    subreddit.data.children]. *)
Definition listing_children (subreddit : Subreddit.t) : option (list Thing.t) :=
  match Subreddit.kind subreddit, Subreddit.data subreddit with
  | Some kind, Some data =>
      if str_eqb kind (str "Listing") then ListingData.children data else None
  | _, _ => None
  end.

(** Lines 86-103: the candidates of all listings, in order. *)
Definition candidates (subreddits : list Subreddit.t) : result (list Link.t) :=
  per_listing <-
    map_result
      (fun subreddit =>
         match listing_children subreddit with
         | Some children => links_of_listing children
         | None => Ok []
         end)
      subreddits ;;
  Ok (List.concat per_listing).

(** Lines 104-117, clause by clause. *)
Definition score_clause (options : Options.t) (link : Link.t) : bool :=
  (negb (truthy (Link.score link))
   || jge (Link.score link) (Options.score options))%bool.

Definition domains_clause (options : Options.t) (link : Link.t) : result bool :=
  match Options.domains options with
  | None => Ok true
  | Some domains =>
      if Nat.eqb (List.length domains) 0 then Ok true
      else
        domain <- method (Link.domain link) lower ;;
        Ok (Z.leb 0 (indexOf domains (Some domain)))
  end.

Definition types_clause (options : Options.t) (link : Link.t) : bool :=
  match Options.types options with
  | None => true
  | Some types =>
      (Nat.eqb (List.length types) 0
       || Z.leb 0 (indexOf types (Link.type link)))%bool
  end.

Definition resolution_clause (options : Options.t) (link : Link.t) : bool :=
  match Options.resolution options with
  | None => true
  | Some minimum =>
      match Link.resolution link with
      | Some r =>
          (number_ge (Resolution.width r) (Resolution.width minimum)
           && number_ge (Resolution.height r) (Resolution.height minimum))%bool
      | None => false
      end
  end.

(** [&&] evaluates its right operand only when the left one is truthy. *)
Definition passes (options : Options.t) (link : Link.t) : result bool :=
  if score_clause options link then
    d <- domains_clause options link ;;
    if d
    then Ok (types_clause options link && resolution_clause options link)%bool
    else Ok false
  else Ok false.

(** Line 121: the callback of [Promise.filter]. *)
Definition not_downloaded (options : Options.t) (link : Link.t) : result bool :=
  filePath <- urlFilePath (Link.url link) (Options.directory options) ;;
  then_ (fileExists filePath) (fun exists_ => Ok (negb exists_)).

(** Lines 119-126.  The arguments of [Promise.reduce] are evaluated
    before it is called, so an unknown sort throws whatever the probes
    give. *)
Definition select (options : Options.t) (links : list Link.t) : result Link.t :=
  if Options.shuffle options then
    let remaining := Promise_filter (not_downloaded options) links in
    f <- selectLink (Options.sort options) ;;
    then_ remaining (fun links => Ok (fold_left f links defaultLink))
  else reduce_links (Options.sort options) links.

Definition selectWallpaperLink (options : Options.t)
  (subreddits : list Subreddit.t) : result Link.t :=
  all <- candidates subreddits ;;
  links <- filter_result (passes options) all ;;
  select options links.

End Engine.

(** ** Links for stating properties

    Each function of the ranking reads a few properties of a link; these
    build a link from the ones that matter and take the rest from another
    link. *)

Definition with_score (score : jsint) (link : Link.t) : Link.t :=
  {| Link.url := Link.url link; Link.subreddit := Link.subreddit link;
     Link.permalink := Link.permalink link; Link.title := Link.title link;
     Link.author := Link.author link;
     Link.score := score;
     Link.ups := Link.ups link; Link.downs := Link.downs link;
     Link.createdUtc := Link.createdUtc link;
     Link.domain := Link.domain link; Link.type := Link.type link;
     Link.resolution := Link.resolution link |}.

Definition with_createdUtc (createdUtc : jsint) (link : Link.t) : Link.t :=
  {| Link.url := Link.url link; Link.subreddit := Link.subreddit link;
     Link.permalink := Link.permalink link; Link.title := Link.title link;
     Link.author := Link.author link;
     Link.score := Link.score link;
     Link.ups := Link.ups link; Link.downs := Link.downs link;
     Link.createdUtc := createdUtc;
     Link.domain := Link.domain link; Link.type := Link.type link;
     Link.resolution := Link.resolution link |}.

Definition with_votes (ups downs : jsint) (link : Link.t) : Link.t :=
  {| Link.url := Link.url link; Link.subreddit := Link.subreddit link;
     Link.permalink := Link.permalink link; Link.title := Link.title link;
     Link.author := Link.author link;
     Link.score := Link.score link;
     Link.ups := ups; Link.downs := downs;
     Link.createdUtc := Link.createdUtc link;
     Link.domain := Link.domain link; Link.type := Link.type link;
     Link.resolution := Link.resolution link |}.

Definition with_url (url : jsstring) (link : Link.t) : Link.t :=
  {| Link.url := Some url; Link.subreddit := Link.subreddit link;
     Link.permalink := Link.permalink link; Link.title := Link.title link;
     Link.author := Link.author link;
     Link.score := Link.score link;
     Link.ups := Link.ups link; Link.downs := Link.downs link;
     Link.createdUtc := Link.createdUtc link;
     Link.domain := Link.domain link; Link.type := Link.type link;
     Link.resolution := Link.resolution link |}.

(** [a < b] on numbers. *)
Definition n_lt (a b : num) : bool := n_gt b a.

(** Two links of score 150, and one that was voted below zero. *)
Definition early : Link.t :=
  with_url (str "http://i.imgur.com/early.png")
    (with_score (JInt 150) (with_createdUtc (JInt 1500000000) defaultLink)).

Definition late : Link.t :=
  with_url (str "http://i.imgur.com/late.png")
    (with_score (JInt 150) (with_createdUtc (JInt 1500000600) defaultLink)).

Definition downvoted : Link.t :=
  with_url (str "http://i.imgur.com/downvoted.png")
    (with_score (JInt (-1)) (with_createdUtc (JInt 1500000000) defaultLink)).

Definition known_sorts : list jsstring :=
  [str "top"; str "hot"; str "controversial"; str "new"].

(** ** Configurations and listings for stating properties *)

(** [options] with another score threshold. *)
Definition with_threshold (score : jsint) (options : Options.t) : Options.t :=
  {| Options.subreddits := Options.subreddits options;
     Options.sort := Options.sort options;
     Options.from := Options.from options;
     Options.score := score;
     Options.domains := Options.domains options;
     Options.types := Options.types options;
     Options.shuffle := Options.shuffle options;
     Options.directory := Options.directory options;
     Options.resolution := Options.resolution options;
     Options.files := Options.files options |}.

Definition with_files (files : option (list jsstring)) (options : Options.t)
  : Options.t :=
  {| Options.subreddits := Options.subreddits options;
     Options.sort := Options.sort options;
     Options.from := Options.from options;
     Options.score := Options.score options;
     Options.domains := Options.domains options;
     Options.types := Options.types options;
     Options.shuffle := Options.shuffle options;
     Options.directory := Options.directory options;
     Options.resolution := Options.resolution options;
     Options.files := files |}.

(** [{}] *)
Definition no_options : UserOptions.t :=
  {| UserOptions.subreddits := None; UserOptions.sort := None;
     UserOptions.from := None; UserOptions.score := None;
     UserOptions.domains := None; UserOptions.types := None;
     UserOptions.shuffle := None; UserOptions.directory := None;
     UserOptions.resolution := None; UserOptions.files := None |}.

(** [{ domains: [], types: [], resolution: null }]: any host, any file
    type, any size; the rest is left to the defaults, [shuffle] included. *)
Definition any_image : UserOptions.t :=
  {| UserOptions.subreddits := None; UserOptions.sort := None;
     UserOptions.from := None; UserOptions.score := None;
     UserOptions.domains := Some (Some []); UserOptions.types := Some (Some []);
     UserOptions.shuffle := None; UserOptions.directory := None;
     UserOptions.resolution := Some None; UserOptions.files := None |}.

(** [{ types: ['PNG'] }] *)
Definition upper_case_types : UserOptions.t :=
  {| UserOptions.subreddits := None; UserOptions.sort := None;
     UserOptions.from := None; UserOptions.score := None;
     UserOptions.domains := None; UserOptions.types := Some (Some [str "PNG"]);
     UserOptions.shuffle := None; UserOptions.directory := None;
     UserOptions.resolution := None; UserOptions.files := None |}.

(** The payload of a link post, and a listing of link posts. *)
Definition link_post (url title domain : string) (score : Z) : Data.t :=
  {| Data.url := Some (str url);
     Data.subreddit := Some (str "wallpapers");
     Data.permalink := Some (str "/r/wallpapers/comments/1");
     Data.title := Some (str title);
     Data.author := Some (str "someone");
     Data.score := JInt score;
     Data.ups := JInt score;
     Data.downs := JInt 0;
     Data.created_utc := JInt 1500000000;
     Data.domain := Some (str domain) |}.

Definition listing (posts : list Data.t) : Subreddit.t :=
  {| Subreddit.kind := Some (str "Listing");
     Subreddit.data :=
       Some {| ListingData.children :=
                 Some (List.map
                         (fun data => {| Thing.kind := Some (str "t3");
                                         Thing.data := Some data |})
                         posts) |} |}.

(** A link post whose URL ends in an upper-case extension, and the
    candidate made of it. *)
Definition png_data : Data.t :=
  link_post "http://i.imgur.com/Lake.PNG" "Lake [1920x1080]" "i.imgur.com" 300.

Definition png_link : Link.t :=
  {| Link.url := Some (str "http://i.imgur.com/Lake.PNG");
     Link.subreddit := Some (str "wallpapers");
     Link.permalink := Some (str "/r/wallpapers/comments/1");
     Link.title := Some (str "Lake [1920x1080]");
     Link.author := Some (str "someone");
     Link.score := JInt 300;
     Link.ups := JInt 300;
     Link.downs := JInt 0;
     Link.createdUtc := JInt 1500000000;
     Link.domain := Some (str "i.imgur.com");
     Link.type := Some (str "png");
     Link.resolution := Some (Resolution.make (JInt 1920) (JInt 1080)) |}.

(** [{ shuffle: false }] *)
Definition no_shuffle : UserOptions.t :=
  {| UserOptions.subreddits := None; UserOptions.sort := None;
     UserOptions.from := None; UserOptions.score := None;
     UserOptions.domains := None; UserOptions.types := None;
     UserOptions.shuffle := Some false; UserOptions.directory := None;
     UserOptions.resolution := None; UserOptions.files := None |}.

(** The score of the link a selection is fulfilled with. *)
Definition selected_score (selection : result Link.t) : option jsint :=
  match selection with
  | Ok link => Some (Link.score link)
  | Throw _ => None
  end.

(** A gallery page: the URL has no [name.ext] part. *)
Definition gallery_url : jsstring := str "https://imgur.com/gallery/abc".

(** A [path.join] for the examples, and a directory in which every path
    is a regular file. *)
Definition slash_join (directory file : jsstring) : jsstring :=
  directory ++ 47%N :: file.

Definition every_path_a_file (path : jsstring) : result Stats.t :=
  Ok {| Stats.isFile := true; Stats.isDirectory := false |}.

Definition nothing_on_disk (path : jsstring) : result Stats.t :=
  Throw (FsError (str "ENOENT")).

Definition shuffle_top : Options.t :=
  {| Options.subreddits := [str "wallpapers"];
     Options.sort := str "top";
     Options.from := str "month";
     Options.score := JInt 100;
     Options.domains := None;
     Options.types := None;
     Options.shuffle := true;
     Options.directory := str "/home/me/.reddit-wallpaper";
     Options.resolution := None;
     Options.files := None |}.

(** ** Shapes of matches, for stating properties *)

(** A run stops at the end of the input or at a code unit outside the
    class. *)
Definition stops (p : N -> bool) (s : jsstring) : Prop :=
  match s with
  | [] => True
  | c :: _ => p c = false
  end.

(** The text of a match of [resolution_regex]. *)
Definition bracketed (s1 w s2 : jsstring) (times : N) (s3 h s4 : jsstring)
  : jsstring :=
  91%N :: s1 ++ w ++ s2 ++ times :: s3 ++ h ++ s4 ++ [93%N].

(** ASCII part of [String.prototype.toUpperCase]. *)
Definition upper_ascii (c : N) : N := if is_lower c then (c - 32)%N else c.

(** [/] and [\], the separators of path names. *)
Definition is_separator (c : N) : bool := (N.eqb c 47 || N.eqb c 92)%bool.

(** [sign * order] of [heat] for an integer score. *)
Definition signed_order (score : Z) : R :=
  ((if Z.ltb 0 score then 1 else if Z.ltb score 0 then -1 else 0)
   * (ln (Rmax (IZR score) 1) / ln 10))%R.

(** [typeof v === 'number'] for a value that is not [NaN]. *)
Definition is_integer_value (v : jsint) : bool :=
  match v with
  | JInt _ => true
  | JUndefined | JNaN => false
  end.

(** A link built from an entry that has none of the four numbers. *)
Definition without_numbers (link : Link.t) : Link.t :=
  with_votes JUndefined JUndefined
    (with_score JUndefined (with_createdUtc JUndefined link)).

(** [options] with another sort. *)
Definition with_sort (sort : jsstring) (options : Options.t) : Options.t :=
  {| Options.subreddits := Options.subreddits options;
     Options.sort := sort;
     Options.from := Options.from options;
     Options.score := Options.score options;
     Options.domains := Options.domains options;
     Options.types := Options.types options;
     Options.shuffle := Options.shuffle options;
     Options.directory := Options.directory options;
     Options.resolution := Options.resolution options;
     Options.files := Options.files options |}.

(** A computation that throws nothing but [TypeError]. *)
Definition only_TypeError (A : Type) (r : result A) : Prop :=
  forall e, r = Throw e -> e = TypeError.

(** [{ domains: ['Flickr.com', 'I.IMGUR.COM'] }] *)
Definition mixed_case_domains : UserOptions.t :=
  {| UserOptions.subreddits := None; UserOptions.sort := None;
     UserOptions.from := None; UserOptions.score := None;
     UserOptions.domains := Some (Some [str "Flickr.com"; str "I.IMGUR.COM"]);
     UserOptions.types := None; UserOptions.shuffle := None;
     UserOptions.directory := None; UserOptions.resolution := None;
     UserOptions.files := None |}.

(** ** The program around the selection (lines 26-76, 175-180, 214-257)

    What the program does to the world is kept as a trace: the
    directories it creates, the pages and images it requests, the files it
    writes, the wallpaper it sets and the notification it shows, in the
    order of the calls.  A computation is a settled promise together with
    the trace of the calls made on the way to it.  The functions are in
    a module of their own, since [run] is also the name of the matcher
    above. *)

Module Notification.
Record t : Type := make {
  title : option jsstring;
  subtitle : option jsstring;
  open : jsstring;
  wait : bool;
  message : jsstring
}.
End Notification.

Inductive effect : Type :=
| Mkdir (directory : jsstring)                          (* fs.mkdirAsync *)
| Request (url : jsstring)                              (* request(url) *)
| Download (url : option jsstring)      (* request(url, { encoding: null }) *)
| WriteFile (file : option jsstring) (data : list N)    (* fs.writeFileAsync *)
| SetWallpaper (file : option jsstring)                 (* wallpaper.set *)
| Notify (notification : Notification.t).           (* notifier.notifyAsync *)

Definition io (A : Type) : Type := (result A * list effect)%type.

(** A value, or a promise that is settled without a call. *)
Definition lift (A : Type) (r : result A) : io A := (r, []).

(** One call to a collaborator and what it answers. *)
Definition perform (A : Type) (e : effect) (answer : result A) : io A :=
  (answer, [e]).

(** [p.then(k)]: [k] runs, and makes its calls, only when [p] is
    fulfilled. *)
Definition io_bind (A B : Type) (p : io A) (k : A -> io B) : io B :=
  match p with
  | (Ok a, trace) => let (r, trace') := k a in (r, trace ++ trace')
  | (Throw e, trace) => (Throw e, trace)
  end.

Declare Scope io_scope.
Delimit Scope io_scope with io.
Notation "x <- p ;; k" := (io_bind p (fun x => k))
  (at level 61, p at next level, right associativity) : io_scope.

(** [Promise.all(promises)]: the promises were all created, so the calls
    of all of them are made; the whole is fulfilled when they all are and
    rejected otherwise.  Which rejection wins when several promises fail
    is a matter of timing; the first of the array stands for it here. *)
Fixpoint Promise_all (A : Type) (promises : list (io A)) : io (list A) :=
  match promises with
  | [] => (Ok [], [])
  | (r, trace) :: rest =>
      let (rs, traces) := Promise_all rest in
      (match r, rs with
       | Ok a, Ok l => Ok (a :: l)
       | Throw e, _ => Throw e
       | Ok _, Throw e => Throw e
       end,
       trace ++ traces)
  end.

(** What [main] is called with, by its [typeof]. *)
Inductive config : Type :=
| ConfigString (file : jsstring)
| ConfigUndefined
| ConfigNull
| ConfigObject (options : UserOptions.t)
| ConfigOther (type : jsstring).  (* number, boolean, function, symbol *)

(** [array.join('')] turns [undefined] into the empty string and a number
    into its decimal form; [s + v] turns [undefined] into ['undefined']. *)
Definition joined (s : option jsstring) : jsstring :=
  match s with
  | Some x => x
  | None => []
  end.

Definition joined_number (Number_toString : Z -> jsstring) (v : jsint)
  : jsstring :=
  match v with
  | JInt z => Number_toString z
  | JNaN => str "NaN"
  | JUndefined => []
  end.

Definition added (s : option jsstring) : jsstring :=
  match s with
  | Some x => x
  | None => str "undefined"
  end.

Module Program.
Section Collaborators.

(** The collaborators of [Section Engine], and the others: the file that
    holds the configuration and its JSON reading, [fs.mkdirAsync], the two
    uses of [request], the JSON reading of a listing, [fs.writeFileAsync],
    [wallpaper.set], the notifier, [moment(...).fromNow()] and the decimal
    form of an integer.  Each answers a call by its arguments alone: the
    program reads nothing it has written, and the files it probes lie in
    a directory whose creation does not change what the probes find. *)
Variable unicode_lower : jsstring -> jsstring.
Variable path_join : jsstring -> jsstring -> jsstring.
Variable expandTilde : jsstring -> jsstring.
Variable home : jsstring.
Variable statAsync : jsstring -> result Stats.t.
Variable readFileAsync : jsstring -> result jsstring.
Variable JSON_parse_config : jsstring -> result UserOptions.t.
Variable mkdirAsync : jsstring -> result unit.
Variable request : jsstring -> result jsstring.
Variable JSON_parse_listing : jsstring -> result Subreddit.t.
Variable request_bytes : option jsstring -> result (list N).
Variable writeFileAsync : option jsstring -> list N -> result unit.
Variable wallpaper_set : option jsstring -> result unit.
Variable notifyAsync : Notification.t -> result unit.
Variable fromNow : jsint -> jsstring.
Variable Number_toString : Z -> jsstring.

Local Open Scope io_scope.

(** *** [directoryExists], [ensureDirectoryExists] (lines 241-257) *)

Definition directoryExists (directory : jsstring) : result bool :=
  match directory with
  | _ :: _ =>
      catch_ (then_ (statAsync directory)
                (fun dir => Ok (Stats.isDirectory dir)))
             (fun _ => Ok false)
  | [] => Promise_resolve false
  end.

Definition ensureDirectoryExists (directory : jsstring) : io unit :=
  exists_ <- lift (directoryExists directory) ;;
  if exists_ then lift (Ok tt)
  else perform (Mkdir directory) (mkdirAsync directory).

(** *** [loadSubreddits], [loadSubreddit] (lines 69-76) *)

Definition subreddit_url (options : Options.t) (subreddit : jsstring)
  : jsstring :=
  List.concat [str "https://reddit.com/r/"; subreddit; str "/";
               Options.sort options; str ".json?t="; Options.from options].

Definition loadSubreddit (options : Options.t) (subreddit : jsstring)
  : io Subreddit.t :=
  res <- perform (Request (subreddit_url options subreddit))
           (request (subreddit_url options subreddit)) ;;
  lift (JSON_parse_listing res).

Definition loadSubreddits (options : Options.t) : io (list Subreddit.t) :=
  Promise_all (List.map (loadSubreddit options) (Options.subreddits options)).

(** *** [downloadFile] (lines 175-180) *)

Definition downloadFile (url : option jsstring) (directory : jsstring)
  : io (option jsstring) :=
  file <- lift (urlFilePath path_join url directory) ;;
  data <- perform (Download url) (request_bytes url) ;;
  _ <- perform (WriteFile file data) (writeFileAsync file data) ;;
  lift (Ok file).

(** *** [notify] (lines 214-231); the [icon] is not used. *)

Definition notification (link : Link.t) : Notification.t :=
  {| Notification.title := Link.title link;
     Notification.subtitle := Link.subreddit link;
     Notification.open :=
       str "https://reddit.com" ++ added (Link.permalink link);
     Notification.wait := true;
     Notification.message :=
       List.concat [str "/r/"; joined (Link.subreddit link); str " ";
                    joined_number Number_toString (Link.score link);
                    str " points, "; fromNow (Link.createdUtc link);
                    str " by "; joined (Link.author link)] |}.

Definition notify (link : Link.t) (icon : option jsstring) : io unit :=
  perform (Notify (notification link)) (notifyAsync (notification link)).

(** *** [run] (lines 38-46) *)

Definition run (options : Options.t) : io Link.t :=
  _ <- ensureDirectoryExists (Options.directory options) ;;
  subreddits <- loadSubreddits options ;;
  link <- lift (selectWallpaperLink unicode_lower path_join statAsync
                  options subreddits) ;;
  file <- downloadFile (Link.url link) (Options.directory options) ;;
  _ <- perform (SetWallpaper file) (wallpaper_set file) ;;
  _ <- notify link file ;;
  lift (Ok link).

(** *** [loadConfig], [main] (lines 26-36, 49-51)

    [defaults] (lines 14-24) is one object for all calls of [main]:
    [assignConfig] writes the options into it and returns it (line 54),
    so a call finds what the calls before it have left there.
    [loadConfig] and [main] take the state of [defaults] they find and
    give, beside their promise, the state they leave, which is the one
    they found when [assignConfig] was not reached.  The first call finds
    [defaults path_join home]; calls are taken one after the other, each
    when the promise of the one before has settled.

    [path.join] of three parts is the join of the join of the first two
    with the third.  The [TypeError] of the last branch of [main] is
    thrown by the call itself, where the other failures are rejected
    promises; the two are one outcome here. *)

Definition loadConfig (current : Options.t) (file : jsstring)
  : io Options.t * Options.t :=
  match bind (readFileAsync file) JSON_parse_config with
  | Ok options =>
      let options := assignConfig unicode_lower expandTilde current options in
      (lift (Ok options), options)
  | Throw e => (lift (Throw e), current)
  end.

Definition default_config_file : jsstring :=
  path_join (path_join home (str ".reddit-wallpaper")) (str "config.json").

Definition main (current : Options.t) (config : config)
  : io Link.t * Options.t :=
  match config with
  | ConfigString ((_ :: _) as file) =>
      let (loaded, after) := loadConfig current file in
      (options <- loaded ;; run options, after)
  | ConfigString [] | ConfigUndefined | ConfigNull =>
      let (loaded, after) := loadConfig current default_config_file in
      (options <- loaded ;; run options, after)
  | ConfigObject options =>
      let options := assignConfig unicode_lower expandTilde current options in
      (run options, options)
  | ConfigOther _ => (lift (Throw TypeError), current)
  end.

End Collaborators.
End Program.

(** Collaborators for the examples: a machine on which every call
    succeeds, every page reads as the same listing and every image has the
    same four bytes. *)
Definition made (directory : jsstring) : result unit := Ok tt.

Definition page (url : jsstring) : result jsstring := Ok (str "{}").

Definition reads_as (listing : Subreddit.t) (body : jsstring)
  : result Subreddit.t := Ok listing.

Definition image_bytes (url : option jsstring) : result (list N) :=
  Ok [137; 80; 78; 71]%N.

Definition written (file : option jsstring) (data : list N) : result unit :=
  Ok tt.

Definition shown (file : option jsstring) : result unit := Ok tt.

Definition notified (notification : Notification.t) : result unit := Ok tt.

Definition a_month_ago (createdUtc : jsint) : jsstring := str "a month ago".

Definition three_hundred (score : Z) : jsstring := str "300".

(** A run under [shuffle_top] on that machine, with nothing on disk. *)
Definition example_run (listing : Subreddit.t) : io Link.t :=
  Program.run (fun s => s) slash_join nothing_on_disk made page
    (reads_as listing) image_bytes written shown notified a_month_ago
    three_hundred shuffle_top.

(** [main] on that machine, where no file can be read. *)
Definition unreadable (file : jsstring) : result jsstring :=
  Throw (FsError (str "ENOENT")).

Definition never_parsed (data : jsstring) : result UserOptions.t :=
  Throw (Error (str "Unexpected end of JSON input")).

Definition example_main (current : Options.t) (config : config)
  : io Link.t * Options.t :=
  Program.main (fun s => s) slash_join (fun s => s) (str "/home/me")
    nothing_on_disk unreadable never_parsed made page
    (reads_as (listing [png_data])) image_bytes written shown notified
    a_month_ago three_hundred current config.

(** [{ subreddits: ['earthporn'] }] *)
Definition one_subreddit : UserOptions.t :=
  {| UserOptions.subreddits := Some [str "earthporn"];
     UserOptions.sort := None;
     UserOptions.from := None; UserOptions.score := None;
     UserOptions.domains := None; UserOptions.types := None;
     UserOptions.shuffle := None; UserOptions.directory := None;
     UserOptions.resolution := None; UserOptions.files := None |}.

(** The requests of a trace. *)
Definition requested (trace : list effect) : list jsstring :=
  flat_map (fun e => match e with Request url => [url] | _ => [] end) trace.

(** * Properties *)

(** ** The parsers on examples *)

(** Beyond 2^53 [parseInt] rounds, to the even neighbour on a tie, and
    beyond the largest double it gives [Infinity]. *)
Example parseInt_rounds :
  parseInt (str "12345678901234567890") = JInt 12345678901234567168
  /\ parseInt (str "9007199254740993") = JInt 9007199254740992
  /\ parseInt (str "9007199254740995") = JInt 9007199254740996
  /\ parseInt (49%N :: repeat 48%N 309) = PosInfinity
  /\ parseInt (45%N :: 49%N :: repeat 48%N 309) = NegInfinity.
Proof. vm_compute. repeat split. Qed.

Example parseResolution_beyond_doubles :
  parseResolution (str "[" ++ 49%N :: repeat 48%N 309 ++ str "x1080]")
  = Some (Resolution.make PosInfinity (JInt 1080)).
Proof. vm_compute. reflexivity. Qed.

Example parseInt_examples :
  parseInt (str "1920") = JInt 1920 /\ parseInt (str "  -42px") = JInt (-42)
  /\ parseInt (str "0x1F") = JInt 31 /\ parseInt (str "007") = JInt 7
  /\ parseInt (str "px") = JNaN /\ parseInt (str "") = JNaN.
Proof. repeat split. Qed.

Example parseResolution_1920x1080 :
  parseResolution (str "Sunset over the bay [1920x1080]")
  = Some (Resolution.make (JInt 1920) (JInt 1080)).
Proof. reflexivity. Qed.

Example parseResolution_star_spaces :
  parseResolution (str "[ 2560 * 1440 ] first, [1x1] second")
  = Some (Resolution.make (JInt 2560) (JInt 1440)).
Proof. reflexivity. Qed.

Example parseResolution_times_sign :
  parseResolution (91 :: str "1920" ++ 215 :: str "1080]")%N
  = Some (Resolution.make (JInt 1920) (JInt 1080)).
Proof. reflexivity. Qed.

Example parseResolution_no_brackets :
  parseResolution (str "no brackets") = None.
Proof. reflexivity. Qed.

Example matchFile_query (ul : jsstring -> jsstring) :
  parseType ul (Some (str "http://i.imgur.com/My-Pic,1.JPG?1")) = Ok (str "jpg").
Proof. reflexivity. Qed.

Example matchFile_no_extension :
  matchFile (Some (str "https://imgur.com/gallery/abc")) = Ok None.
Proof. reflexivity. Qed.

(** ** The selection on examples *)

Example select_new_file :
  selectWallpaperLink (fun s => s) slash_join nothing_on_disk
    (assignConfig (fun s => s) (fun s => s)
       (defaults slash_join (str "/home/me")) no_options)
    [listing [png_data]]
  = Ok png_link.
Proof. reflexivity. Qed.

Example select_file_on_disk :
  selectWallpaperLink (fun s => s) slash_join every_path_a_file
    (assignConfig (fun s => s) (fun s => s)
       (defaults slash_join (str "/home/me")) no_options)
    [listing [png_data]]
  = Ok defaultLink.
Proof. reflexivity. Qed.

Example select_top_of_three :
  selected_score
    (selectWallpaperLink (fun s => s) slash_join nothing_on_disk
       (assignConfig (fun s => s) (fun s => s)
          (defaults slash_join (str "/home/me")) no_shuffle)
       [listing [link_post "http://i.imgur.com/a.png" "A [1920x1080]" "i.imgur.com" 50;
                 link_post "http://i.imgur.com/b.png" "B [1920x1080]" "i.imgur.com" 200];
        listing [link_post "http://i.imgur.com/c.jpg" "C [2560x1440]" "imgur.com" 150]])
  = Some (JInt 200).
Proof. reflexivity. Qed.

(** ** Character classes and regular expressions *)

Lemma in_range_spec (lo hi c : N) :
  in_range lo hi c = true <-> (lo <= c <= hi)%N.
Proof. unfold in_range. rewrite Bool.andb_true_iff, !N.leb_le. reflexivity. Qed.

Lemma is_word_spec (c : N) :
  is_word c = true <->
  ((65 <= c <= 90) \/ (97 <= c <= 122) \/ (48 <= c <= 57) \/ c = 95)%N.
Proof.
  unfold is_word, is_upper, is_lower, is_digit.
  rewrite !Bool.orb_true_iff, !in_range_spec, N.eqb_eq. tauto.
Qed.

Lemma is_lower_word_spec (c : N) :
  is_lower_word c = true <->
  ((97 <= c <= 122) \/ (48 <= c <= 57) \/ c = 95)%N.
Proof.
  unfold is_lower_word, is_lower, is_digit.
  rewrite !Bool.orb_true_iff, !in_range_spec, N.eqb_eq. tauto.
Qed.

Lemma is_digit_range (c : N) : is_digit c = true <-> (48 <= c <= 57)%N.
Proof.
  unfold is_digit, in_range.
  rewrite Bool.andb_true_iff, !N.leb_le. reflexivity.
Qed.

Lemma digit_not_space (c : N) : is_digit c = true -> is_space c = false.
Proof.
  intros H. apply is_digit_range in H.
  assert (E : (c = 48 \/ c = 49 \/ c = 50 \/ c = 51 \/ c = 52 \/ c = 53
               \/ c = 54 \/ c = 55 \/ c = 56 \/ c = 57)%N) by lia.
  repeat destruct E as [-> | E]; try subst c; reflexivity.
Qed.

Lemma span_spec (p : N -> bool) (s a b : jsstring) :
  span p s = (a, b) -> Forall (fun c => p c = true) a /\ s = a ++ b.
Proof.
  revert a b. induction s as [ | c s IH]; intros a b H; simpl in H.
  - injection H as <- <-. split; [constructor | reflexivity].
  - destruct (p c) eqn:Hc.
    + destruct (span p s) as [a' b'] eqn:Hs.
      injection H as <- <-.
      destruct (IH a' b' eq_refl) as [Hall ->].
      split; [constructor; assumption | reflexivity].
    + injection H as <- <-. split; [constructor | reflexivity].
Qed.

Lemma span_all (p : N -> bool) (s : jsstring) :
  Forall (fun c => p c = true) s -> span p s = (s, []).
Proof.
  induction 1 as [ | c s Hc _ IH]; simpl.
  - reflexivity.
  - rewrite Hc, IH. reflexivity.
Qed.

Lemma search_some (A : Type) (attempt : jsstring -> option A) (s : jsstring)
  (m : A) :
  search attempt s = Some m -> exists t, attempt t = Some m.
Proof.
  induction s as [ | c s IH]; simpl; intros H.
  - destruct (attempt []) eqn:E; [ | discriminate]. exists []. congruence.
  - destruct (attempt (c :: s)) eqn:E.
    + exists (c :: s). congruence.
    + auto.
Qed.

Lemma class_excludes (p : N -> bool) (x c : N) :
  p x = false -> p c = true -> N.eqb x c = false.
Proof.
  intros Hx Hc. destruct (N.eqb_spec x c) as [-> | _]; congruence.
Qed.

Lemma times_not_space (c : N) : is_times c = true -> is_space c = false.
Proof.
  unfold is_times. rewrite !Bool.orb_true_iff, !N.eqb_eq.
  intros [[[-> | ->] | ->] | ->]; reflexivity.
Qed.

Lemma space_not_times (c : N) : is_space c = true -> is_times c = false.
Proof.
  intros H. destruct (is_times c) eqn:E; [ | reflexivity].
  rewrite (times_not_space c E) in H. discriminate.
Qed.

Lemma space_not_digit (c : N) : is_space c = true -> is_digit c = false.
Proof.
  intros H. destruct (is_digit c) eqn:E; [ | reflexivity].
  rewrite (@digit_not_space c E) in H. discriminate.
Qed.

Lemma digit_not_times (c : N) : is_digit c = true -> is_times c = false.
Proof.
  intros H. apply is_digit_range in H.
  unfold is_times.
  repeat (rewrite (proj2 (N.eqb_neq c _)) by lia). reflexivity.
Qed.

Lemma search_ext (A : Type) (f g : jsstring -> option A) (s : jsstring) :
  (forall t, f t = g t) -> search f s = search g s.
Proof.
  intros H. induction s as [ | c s IH]; simpl; rewrite H, ?IH; reflexivity.
Qed.

(** When the continuation fails on every input that starts with a member
    of the class, the greedy run is the maximal one. *)
Lemma many_greedy (A : Type) (p : N -> bool) (s : jsstring)
  (k : jsstring -> jsstring -> option A) :
  (forall m c r, p c = true -> k m (c :: r) = None) ->
  many p s k = let (a, b) := span p s in k a b.
Proof.
  revert k. induction s as [ | c s IH]; intros k Hk; simpl.
  - reflexivity.
  - destruct (p c) eqn:Hc; [ | reflexivity].
    rewrite IH by (intros; apply Hk; assumption).
    destruct (span p s) as [a b].
    destruct (k (c :: a) b); [reflexivity | ].
    apply Hk. assumption.
Qed.

Lemma attempt_file_regex (s : jsstring) :
  attempt file_regex s = file_attempt s.
Proof.
  unfold attempt, file_regex, file_attempt, lit. cbn [run].
  destruct s as [ | c s]; [reflexivity | ].
  cbn [span]. destruct (is_name c) eqn:Hc; [ | reflexivity].
  rewrite many_greedy.
  - destruct (span is_name s) as [name r1].
    destruct r1 as [ | dot r2]; [reflexivity | ].
    rewrite N.eqb_sym.
    destruct (N.eqb dot 46) eqn:Hdot; [ | reflexivity].
    destruct r2 as [ | e r3]; [reflexivity | ].
    cbn [span]. destruct (is_word e) eqn:He; [ | reflexivity].
    rewrite many_greedy.
    + destruct (span is_word r3) as [ext r4].
      destruct r4 as [ | q r5].
      * cbn [app]. rewrite app_nil_r. reflexivity.
      * rewrite (N.eqb_sym 63 q), (N.eqb_sym 35 q).
        destruct (N.eqb q 63) eqn:Hq; cbn [orb app].
        -- reflexivity.
        -- destruct (N.eqb q 35); reflexivity.
    + intros m x r Hx.
      rewrite (@class_excludes is_word 63 x eq_refl Hx).
      rewrite (@class_excludes is_word 35 x eq_refl Hx). reflexivity.
  - intros m x r Hx.
    rewrite (@class_excludes is_name 46 x eq_refl Hx). reflexivity.
Qed.

Lemma attempt_resolution_regex (s : jsstring) :
  attempt resolution_regex s = resolution_attempt s.
Proof.
  unfold attempt, resolution_regex, resolution_attempt, lit. cbn [run].
  destruct s as [ | open r0]; [reflexivity | ].
  rewrite N.eqb_sym. destruct (N.eqb open 91); [ | reflexivity].
  rewrite many_greedy.
  2:{ intros m c r Hc. rewrite (space_not_digit c Hc). reflexivity. }
  destruct (span is_space r0) as [s1 r1].
  destruct r1 as [ | w0 r1']; [reflexivity | ].
  cbn [span]. destruct (is_digit w0) eqn:Hw0; [ | reflexivity].
  rewrite many_greedy.
  2:{ intros m c r Hc. cbn [many].
      rewrite (@digit_not_space c Hc), (digit_not_times c Hc). reflexivity. }
  destruct (span is_digit r1') as [w r2].
  rewrite many_greedy.
  2:{ intros m c r Hc. rewrite (space_not_times c Hc). reflexivity. }
  destruct (span is_space r2) as [s2 r3].
  destruct r3 as [ | times r4]; [reflexivity | ].
  destruct (is_times times); [ | reflexivity].
  rewrite many_greedy.
  2:{ intros m c r Hc. rewrite (space_not_digit c Hc). reflexivity. }
  destruct (span is_space r4) as [s3 r5].
  destruct r5 as [ | h0 r5']; [reflexivity | ].
  cbn [span]. destruct (is_digit h0) eqn:Hh0; [ | reflexivity].
  rewrite many_greedy.
  2:{ intros m c r Hc. cbn [many].
      rewrite (@digit_not_space c Hc).
      rewrite (@class_excludes is_digit 93 c eq_refl Hc). reflexivity. }
  destruct (span is_digit r5') as [h r6].
  rewrite many_greedy.
  2:{ intros m c r Hc.
      rewrite (@class_excludes is_space 93 c eq_refl Hc). reflexivity. }
  destruct (span is_space r6) as [s4 r7].
  destruct r7 as [ | close r8]; [reflexivity | ].
  rewrite N.eqb_sym. destruct (N.eqb close 93); [ | reflexivity].
  reflexivity.
Qed.

Lemma match_file_regex (s : jsstring) :
  match_ file_regex s = search file_attempt s.
Proof. apply search_ext, attempt_file_regex. Qed.

Lemma match_resolution_regex (s : jsstring) :
  match_ resolution_regex s = search resolution_attempt s.
Proof. apply search_ext, attempt_resolution_regex. Qed.

(** ** Real arithmetic of the number model *)

Ltac rdec :=
  unfold is_neg, is_pos, is_zero in *;
  repeat match goal with
    | |- context [Rlt_dec ?a ?b] => destruct (Rlt_dec a b); try lra
    | |- context [Req_dec_T ?a ?b] => destruct (Req_dec_T a b); try lra
    | H : context [Rlt_dec ?a ?b] |- _ => destruct (Rlt_dec a b); try lra
    | H : context [Req_dec_T ?a ?b] |- _ => destruct (Req_dec_T a b); try lra
    end.

Section RealArithmetic.
Local Open Scope R_scope.

Lemma n_gt_Fin (x y : R) : n_gt (Fin x) (Fin y) = true <-> y < x.
Proof. simpl. rdec; split; (discriminate || lra || reflexivity). Qed.

Lemma n_gt_NaN_l (b : num) : n_gt NaN b = false.
Proof. reflexivity. Qed.

Lemma n_gt_NaN_r (a : num) : n_gt a NaN = false.
Proof. destruct a; reflexivity. Qed.

Lemma n_add_NaN_r (a : num) : n_add a NaN = NaN.
Proof. destruct a; reflexivity. Qed.

Lemma n_div_Fin (x y : R) : y <> 0 -> n_div (Fin x) (Fin y) = Fin (x / y).
Proof. intros H. simpl. unfold is_zero. destruct (Req_dec_T y 0); [contradiction | reflexivity]. Qed.

Lemma n_div_zero_zero : n_div (Fin 0) (Fin 0) = NaN.
Proof. simpl. unfold is_zero. destruct (Req_dec_T 0 0); [reflexivity | lra]. Qed.

Lemma Math_max_Fin (x y : R) : Math_max (Fin x) (Fin y) = Fin (Rmax x y).
Proof.
  unfold Math_max, n_gt, Rmax.
  destruct (Rlt_dec y x), (Rle_dec x y); try reflexivity; lra.
Qed.

Lemma Math_log10_Fin (x : R) : 0 < x -> Math_log10 (Fin x) = Fin (ln x / ln 10).
Proof.
  intros H. unfold Math_log10, is_neg, is_zero.
  destruct (Rlt_dec x 0); [lra | ].
  destruct (Req_dec_T x 0); [lra | reflexivity].
Qed.

Lemma Math_pow_NaN (base : num) : Math_pow base NaN = NaN.
Proof. reflexivity. Qed.

Lemma Math_pow_Fin_1 (x : R) : 0 < x -> Math_pow (Fin x) (Fin 1) = Fin x.
Proof.
  intros H. unfold Math_pow, is_zero, is_pos.
  destruct (Req_dec_T 1 0); [lra | ].
  destruct (Req_dec_T x 0); [lra | ].
  destruct (Rlt_dec 0 x); [ | lra].
  rewrite Rpower_1 by assumption. reflexivity.
Qed.

Lemma Int_part_bounds (r : R) : IZR (Int_part r) <= r < IZR (Int_part r) + 1.
Proof. destruct (base_Int_part r). lra. Qed.

Lemma Int_part_le (x y : R) : x <= y -> (Int_part x <= Int_part y)%Z.
Proof.
  intros Hxy.
  pose proof (Int_part_bounds x) as Hx.
  pose proof (Int_part_bounds y) as Hy.
  assert (H : IZR (Int_part x) < IZR (Int_part y + 1)) by (rewrite plus_IZR; lra).
  apply lt_IZR in H. lia.
Qed.

Lemma Int_part_unique (r : R) (z : Z) : IZR z <= r < IZR z + 1 -> Int_part r = z.
Proof. intros H. symmetry. apply Int_part_spec. lra. Qed.

Lemma Math_round_Fin_le (x y : R) (i j : num) :
  x <= y -> n_gt (Math_round (Fin x) i) (Math_round (Fin y) j) = false.
Proof.
  intros H. simpl.
  assert (Hz : (Int_part (x + / 2) <= Int_part (y + / 2))%Z)
    by (apply Int_part_le; lra).
  apply IZR_le in Hz. rdec; reflexivity.
Qed.

Lemma ln_10_pos : 0 < ln 10.
Proof. rewrite <- ln_1. apply ln_increasing; lra. Qed.

Lemma log10_nonneg (x : R) : 1 <= x -> 0 <= ln x / ln 10.
Proof.
  intros H. pose proof ln_10_pos.
  assert (0 <= ln x).
  { destruct (Req_dec_T x 1) as [-> | Hne].
    - rewrite ln_1. lra.
    - left. rewrite <- ln_1. apply ln_increasing; lra. }
  apply Rmult_le_pos; [assumption | left; apply Rinv_0_lt_compat; assumption].
Qed.

(** X5: [heat] never decreases when [createdUtc] grows and the score stays. *)
Lemma heat_monotone (link : Link.t) (t1 t2 : Z) :
  (t1 <= t2)%Z ->
  n_gt (heat (with_createdUtc (JInt t1) link))
       (heat (with_createdUtc (JInt t2) link)) = false.
Proof.
  intros Ht. apply IZR_le in Ht.
  unfold heat, with_createdUtc; simpl Link.score; simpl Link.createdUtc.
  set (k := n_mul _ _). simpl ToNumber. simpl n_sub. simpl n_div.
  unfold is_zero. destruct (Req_dec_T 45000 0) as [E | _]; [lra | ].
  destruct k as [ | | | kr]; try reflexivity.
  apply Math_round_Fin_le.
  apply Rplus_le_compat_l. unfold Rdiv.
  apply Rmult_le_compat_r; lra.
Qed.

End RealArithmetic.

(** ** Scoring: [heat] and [controversy] *)

Section Scoring.
Local Open Scope R_scope.

Lemma heat_score_zero (link : Link.t) (t : Z) :
  Link.score link = JInt 0 ->
  heat (with_createdUtc (JInt t) link)
  = Fin (IZR (Int_part ((IZR t - 1134028003) / 45000 + / 2))).
Proof.
  intros Hs. unfold heat, with_createdUtc; simpl Link.score; simpl Link.createdUtc.
  rewrite Hs. simpl jgt. simpl jlt. cbv iota. simpl ToNumber.
  rewrite Math_max_Fin, Math_log10_Fin
    by (unfold Rmax; destruct (Rle_dec 0 1); lra).
  unfold n_sub. simpl n_neg. simpl n_add at 2. simpl n_mul.
  rewrite n_div_Fin by lra. simpl.
  do 3 f_equal. unfold Rminus. lra.
Qed.

(** C4 (the source departs from the claim).  [heat] ends in
    [Math.round(x, 7)]; [Math.round] ignores the [7] and rounds to an
    integer, so two links of score 0 created one second apart, at
    1134028003 and at 1134028004, both have heat 0: the later one is not
    strictly hotter. *)
Theorem heat_equal_one_second_apart :
  heat (with_createdUtc (JInt 1134028003) defaultLink) = Fin 0
  /\ heat (with_createdUtc (JInt 1134028004) defaultLink) = Fin 0
  /\ n_lt (heat (with_createdUtc (JInt 1134028003) defaultLink))
          (heat (with_createdUtc (JInt 1134028004) defaultLink)) = false.
Proof.
  assert (H1 : heat (with_createdUtc (JInt 1134028003) defaultLink) = Fin 0).
  { rewrite heat_score_zero by reflexivity.
    do 2 f_equal. apply Int_part_unique. lra. }
  assert (H2 : heat (with_createdUtc (JInt 1134028004) defaultLink) = Fin 0).
  { rewrite heat_score_zero by reflexivity.
    do 2 f_equal. apply Int_part_unique. lra. }
  repeat split; try assumption.
  unfold n_lt. rewrite H1, H2. apply Bool.not_true_is_false.
  rewrite n_gt_Fin. lra.
Qed.

(** C2 (the source departs from the claim on its first part).  With no
    votes at all, [balance] is [0 / 0] and [controversy] returns
    [Math.pow(0, NaN)], which is [NaN] and not 0.  The other two parts
    hold: a negative [ups] or [downs] gives 0 whatever the other count is,
    and 10 against 10 gives 20. *)
Theorem controversy_no_votes_is_NaN :
  (forall link, controversy (with_votes (JInt 0) (JInt 0) link) = NaN)
  /\ (forall link (p : positive) (v : jsint),
        controversy (with_votes (JInt (Z.neg p)) v link) = Fin 0
        /\ controversy (with_votes v (JInt (Z.neg p)) link) = Fin 0)
  /\ (forall link, controversy (with_votes (JInt 10) (JInt 10) link) = Fin 20).
Proof.
  split; [ | split].
  - intros link. unfold controversy, with_votes; simpl Link.ups; simpl Link.downs.
    change (jlt (JInt 0) (JInt 0)) with false.
    change (jgt (JInt 0) (JInt 0)) with false.
    simpl orb. cbv iota. simpl ToNumber.
    rewrite n_div_zero_zero. apply Math_pow_NaN.
  - intros link p v. unfold controversy, with_votes; simpl Link.ups; simpl Link.downs.
    split.
    + replace (jlt (JInt (Z.neg p)) (JInt 0)) with true by reflexivity.
      rewrite Bool.orb_true_r. reflexivity.
    + replace (jlt (JInt (Z.neg p)) (JInt 0)) with true by reflexivity.
      reflexivity.
  - intros link. unfold controversy, with_votes; simpl Link.ups; simpl Link.downs.
    change (jlt (JInt 10) (JInt 0)) with false.
    change (jgt (JInt 10) (JInt 10)) with false.
    simpl orb. cbv iota. simpl ToNumber.
    rewrite n_div_Fin by lra. simpl n_add.
    replace (10 / 10) with 1 by lra.
    rewrite Math_pow_Fin_1 by lra. f_equal. lra.
Qed.

End Scoring.

(** ** The fold *)

Lemma jgt_irrefl (v : jsint) : jgt v v = false.
Proof. destruct v; simpl; trivial. apply Z.ltb_irrefl. Qed.

Lemma reduce_links_top (links : list Link.t) :
  reduce_links (str "top") links
  = Ok (fold_left
          (fun x y => if jgt (Link.score x) (Link.score y) then x else y)
          links defaultLink).
Proof. reflexivity. Qed.

Lemma reduce_links_hot (links : list Link.t) :
  reduce_links (str "hot") links
  = Ok (fold_left (fun x y => if n_gt (heat x) (heat y) then x else y)
          links defaultLink).
Proof. reflexivity. Qed.

Lemma reduce_links_controversial (links : list Link.t) :
  reduce_links (str "controversial") links
  = Ok (fold_left
          (fun x y => if n_gt (controversy x) (controversy y) then x else y)
          links defaultLink).
Proof. reflexivity. Qed.

Lemma reduce_links_new (links : list Link.t) :
  reduce_links (str "new") links
  = Ok (fold_left
          (fun x y => if jgt (Link.createdUtc x) (Link.createdUtc y) then x else y)
          links defaultLink).
Proof. reflexivity. Qed.

Lemma Ok_inj (A : Type) (a b : A) : Ok a = Ok b -> a = b.
Proof. intros H. injection H. trivial. Qed.

(** C1, as the source has it.  The comparator of ['top'] is
    [x.score > y.score ? x : y]: on a tie the test fails and the new
    candidate [y] replaces the accumulator.  Whenever the winner of a
    sequence has the score of the candidate that comes next, the
    candidate that comes next is the winner of the longer sequence: the
    later one wins on a tie. *)
Theorem top_tie_goes_to_later (links : list Link.t) (x y : Link.t) :
  reduce_links (str "top") links = Ok x ->
  Link.score x = Link.score y ->
  reduce_links (str "top") (links ++ [y]) = Ok y.
Proof.
  rewrite !reduce_links_top. intros Hx Hs. apply Ok_inj in Hx.
  rewrite fold_left_app, Hx. simpl.
  rewrite Hs, jgt_irrefl. reflexivity.
Qed.

Lemma top_tie_goes_to_later_witness :
  reduce_links (str "top") ([early] ++ [late]) = Ok late.
Proof.
  apply (@top_tie_goes_to_later [early] early late); reflexivity.
Defined.

(** C1 as the specification words it fails: of two candidates of score
    150 the fold returns the second, not the first. *)
Lemma top_tie_first_seen_loses :
  Link.score early = Link.score late
  /\ reduce_links (str "top") [early; late] = Ok late
  /\ reduce_links (str "top") [early; late] <> Ok early.
Proof.
  split; [reflexivity | split; [reflexivity | ]].
  intros H. apply Ok_inj in H.
  apply (f_equal Link.createdUtc) in H. discriminate H.
Qed.

Section Sentinel.
Local Open Scope R_scope.

Lemma controversy_defaultLink : controversy defaultLink = NaN.
Proof.
  unfold controversy, defaultLink; simpl Link.ups; simpl Link.downs.
  change (jlt (JInt 0) (JInt 0)) with false.
  change (jgt (JInt 0) (JInt 0)) with false.
  simpl orb. cbv iota. simpl ToNumber.
  rewrite n_div_zero_zero. apply Math_pow_NaN.
Qed.

(** [sign * order] in [heat] is [NaN] or a real that is not negative. *)
Lemma signed_order_cases (score : jsint) :
  let k := n_mul
             (if jgt score (JInt 0) then Fin 1
              else if jlt score (JInt 0) then Fin (-1) else Fin 0)
             (Math_log10 (Math_max (ToNumber score) (Fin 1))) in
  k = NaN \/ exists r, k = Fin r /\ 0 <= r.
Proof.
  destruct score as [ | | z]; cbv zeta; [left; reflexivity | left; reflexivity | ].
  right. simpl ToNumber.
  rewrite Math_max_Fin.
  assert (Hm : 1 <= Rmax (IZR z) 1) by apply Rmax_r.
  rewrite Math_log10_Fin by lra.
  pose proof (log10_nonneg Hm) as Hlog.
  unfold jlt; simpl jgt.
  destruct (Z.ltb_spec 0 z) as [Hpos | Hle].
  - eexists; split; [reflexivity | lra].
  - destruct (Z.ltb_spec z 0) as [Hneg | Hge].
    + eexists; split; [reflexivity | ].
      rewrite Rmax_right by (apply IZR_le in Hle; lra).
      rewrite ln_1. lra.
    + eexists; split; [reflexivity | lra].
Qed.

Lemma hot_keeps_candidate (c : Link.t) :
  jlt (Link.createdUtc c) (JInt 0) = false ->
  n_gt (heat defaultLink) (heat c) = false.
Proof.
  intros Ht.
  change defaultLink with (with_createdUtc (JInt 0) defaultLink).
  rewrite heat_score_zero by reflexivity.
  unfold heat.
  destruct (signed_order_cases (Link.score c)) as [-> | [kr [-> Hkr]]].
  - destruct (n_div _ _); reflexivity.
  - destruct (Link.createdUtc c) as [ | | t]; try reflexivity.
    unfold jlt in Ht; simpl in Ht. apply Z.ltb_ge in Ht. apply IZR_le in Ht.
    simpl ToNumber. unfold n_sub; simpl n_neg; simpl n_add at 2.
    rewrite n_div_Fin by lra. simpl n_add.
    change (Fin (IZR (Int_part ((0 - 1134028003) / 45000 + / 2))))
      with (Math_round (Fin ((0 - 1134028003) / 45000)) (Fin 7)).
    apply Math_round_Fin_le.
    unfold Rdiv. nra.
Qed.

End Sentinel.

(** C5, as the source has it.  The fold starts from [defaultLink], whose
    four numbers are 0, and every comparator keeps the accumulator only
    when it is strictly greater.  Folding no candidate returns the
    sentinel; folding one candidate [c] returns [c] when [c] is not below
    the sentinel in the order of the sort: under ['top'] when [c.score < 0]
    is false, under ['new'] and ['hot'] when [c.createdUtc < 0] is false,
    under ['controversial'] always. *)
Theorem sentinel_identity_above_zero (sort : jsstring) (c : Link.t) :
  In sort known_sorts ->
  (sort = str "top" -> jlt (Link.score c) (JInt 0) = false) ->
  (sort = str "hot" \/ sort = str "new" ->
   jlt (Link.createdUtc c) (JInt 0) = false) ->
  reduce_links sort [] = Ok defaultLink /\ reduce_links sort [c] = Ok c.
Proof.
  intros Hsort Htop Htime.
  destruct Hsort as [<- | [<- | [<- | [<- | []]]]].
  - split; [reflexivity | ].
    rewrite reduce_links_top. cbn [fold_left].
    change (Link.score defaultLink) with (JInt 0).
    specialize (Htop eq_refl). unfold jlt in Htop. rewrite Htop. reflexivity.
  - split; [reflexivity | ].
    rewrite reduce_links_hot. cbn [fold_left].
    rewrite hot_keeps_candidate by auto. reflexivity.
  - split; [reflexivity | ].
    rewrite reduce_links_controversial. cbn [fold_left].
    rewrite controversy_defaultLink. reflexivity.
  - split; [reflexivity | ].
    rewrite reduce_links_new. cbn [fold_left].
    change (Link.createdUtc defaultLink) with (JInt 0).
    assert (H : jlt (Link.createdUtc c) (JInt 0) = false) by auto.
    unfold jlt in H. rewrite H. reflexivity.
Qed.

Lemma sentinel_identity_above_zero_witness :
  reduce_links (str "hot") [] = Ok defaultLink
  /\ reduce_links (str "hot") [early] = Ok early.
Proof.
  apply (@sentinel_identity_above_zero (str "hot") early).
  - right; left; reflexivity.
  - intros _. reflexivity.
  - intros _. reflexivity.
Defined.

(** C5 as the specification words it fails: under ['top'] a candidate of
    score -1 loses to the sentinel, so the sentinel is the result of a
    sequence that is not empty. *)
Lemma sentinel_beats_negative_score :
  reduce_links (str "top") [downvoted] = Ok defaultLink
  /\ reduce_links (str "top") [downvoted] <> Ok downvoted.
Proof.
  split; [reflexivity | ].
  intros H. apply Ok_inj in H.
  apply (f_equal Link.score) in H. discriminate H.
Qed.

(** ** The filter *)

Lemma passes_score_clause (ul : jsstring -> jsstring) (options : Options.t)
  (link : Link.t) :
  passes ul options link = Ok true -> score_clause options link = true.
Proof.
  unfold passes. destruct (score_clause options link); [trivial | discriminate].
Qed.

(** C7.  The first clause of the filter is
    [!link.score || link.score >= options.score]: it holds exactly when
    the score is falsy ([undefined], [NaN] or 0) or is a number that
    reaches the threshold.  A score of 0 passes under every threshold, a
    score of 50 fails under the threshold 100. *)
Theorem score_clause_falsy_or_threshold (options : Options.t) (link : Link.t) :
  (score_clause options link = true <->
   (Link.score link = JUndefined \/ Link.score link = JNaN
    \/ Link.score link = JInt 0)
   \/ exists s t, Link.score link = JInt s /\ Options.score options = JInt t
                  /\ (t <= s)%Z)
  /\ score_clause options (with_score (JInt 0) link) = true
  /\ score_clause (with_threshold (JInt 100) options)
                  (with_score (JInt 50) link) = false.
Proof.
  split; [ | split; reflexivity].
  unfold score_clause.
  destruct (Link.score link) as [ | | s]; simpl.
  - split; auto.
  - split; auto.
  - destruct (Z.eqb_spec s 0) as [-> | Hs]; simpl.
    + split; auto.
    + destruct (Options.score options) as [ | | t].
      * split; [discriminate | ].
        intros [[H | [H | H]] | (s' & t' & _ & H & _)]; try discriminate.
        injection H; intros; contradiction.
      * split; [discriminate | ].
        intros [[H | [H | H]] | (s' & t' & _ & H & _)]; try discriminate.
        injection H; intros; contradiction.
      * rewrite Z.leb_le. split.
        -- intros H. right. exists s, t. auto.
        -- intros [[H | [H | H]] | (s' & t' & H1 & H2 & H3)]; try discriminate.
           ++ injection H; intros; contradiction.
           ++ injection H1; injection H2; intros; subst; assumption.
Qed.

(** ** The existence probe *)

(** C8.  [fileExists] ends in [.catch(() => false)]: it is fulfilled for
    every path and every state of the file system, with [false] when
    [fs.statAsync] fails, and with [true] exactly when the path is not
    empty and [fs.statAsync] gives the stats of a regular file. *)
Theorem fileExists_absorbs_failure (statAsync : jsstring -> result Stats.t)
  (filePath : option jsstring) :
  (exists b, fileExists statAsync filePath = Ok b)
  /\ (forall p e, filePath = Some p -> statAsync p = Throw e ->
                  fileExists statAsync filePath = Ok false)
  /\ (fileExists statAsync filePath = Ok true <->
      exists p stats, filePath = Some p /\ p <> []
                      /\ statAsync p = Ok stats /\ Stats.isFile stats = true).
Proof.
  unfold fileExists, then_, catch_, bind, Promise_resolve.
  destruct filePath as [[ | c p] | ].
  - split; [eauto | split].
    + reflexivity.
    + split; [discriminate | ].
      intros (p & st & H & Hne & _). injection H as <-. now elim Hne.
  - destruct (statAsync (c :: p)) as [st | e] eqn:Hstat; simpl.
    + split; [eauto | split].
      * intros p' e H. injection H as <-. rewrite Hstat. discriminate.
      * split.
        -- intros H. injection H as H. exists (c :: p), st.
           repeat split; (discriminate || assumption).
        -- intros (p' & st' & H & _ & Hs & Hf). injection H as <-.
           rewrite Hstat in Hs. injection Hs as <-. rewrite Hf. reflexivity.
    + split; [eauto | split].
      * reflexivity.
      * split; [discriminate | ].
        intros (p' & st' & H & _ & Hs & _). injection H as <-.
        rewrite Hstat in Hs. discriminate.
  - split; [eauto | split].
    + discriminate.
    + split; [discriminate | ].
      intros (p & st & H & _). discriminate.
Qed.

Lemma urlFilePath_no_match (path_join : jsstring -> jsstring -> jsstring)
  (url : option jsstring) (directory : jsstring) :
  matchFile url = Ok None ->
  urlFilePath path_join url directory = Throw TypeError.
Proof. unfold urlFilePath. intros ->. reflexivity. Qed.

(** C3 (the source departs from the claim).  For a URL with no
    [name.ext] part [matchFile] returns [undefined]; [parseType] tests its
    match before reading it, [urlFilePath] reads [match.length] untested
    and throws a [TypeError].  With [shuffle] on, a listing whose link
    [https://imgur.com/gallery/abc] passes the filter makes the whole
    selection fail with that error: the path is not [undefined], the probe
    is never run, and the candidate does not reach the fold. *)
Theorem unparsable_url_throws
  (unicode_lower : jsstring -> jsstring)
  (path_join : jsstring -> jsstring -> jsstring)
  (expandTilde : jsstring -> jsstring) (home : jsstring)
  (statAsync : jsstring -> result Stats.t) :
  matchFile (Some gallery_url) = Ok None
  /\ parseType unicode_lower (Some gallery_url) = Ok []
  /\ (forall directory,
        urlFilePath path_join (Some gallery_url) directory = Throw TypeError)
  /\ selectWallpaperLink unicode_lower path_join statAsync
       (assignConfig unicode_lower expandTilde (defaults path_join home) any_image)
       [listing [link_post "https://imgur.com/gallery/abc" "Mountain lake"
                   "imgur.com" 200]]
     = Throw TypeError.
Proof.
  repeat split; try reflexivity.
Qed.

(** ** The selection *)

Lemma filter_result_none (A : Type) (f : A -> result bool) (l : list A) :
  (forall a, In a l -> f a = Ok false) -> filter_result f l = Ok [].
Proof.
  induction l as [ | a l IH]; intros H; simpl.
  - reflexivity.
  - rewrite (H a) by (left; reflexivity). simpl.
    rewrite IH by (intros b Hb; apply H; right; assumption).
    reflexivity.
Qed.

Lemma selectLink_known (sort : jsstring) :
  In sort known_sorts -> exists f, selectLink sort = Ok f.
Proof.
  intros [<- | [<- | [<- | [<- | []]]]]; eexists; reflexivity.
Qed.

(** C6.  With [shuffle] on and a sort the program knows, if the probe of
    every filtered candidate's path is fulfilled with [true], the fold has
    nothing to fold and the selection is [defaultLink]. *)
Theorem all_downloaded_gives_sentinel
  (path_join : jsstring -> jsstring -> jsstring)
  (statAsync : jsstring -> result Stats.t)
  (options : Options.t) (links : list Link.t) :
  Options.shuffle options = true ->
  In (Options.sort options) known_sorts ->
  (forall link, In link links ->
     exists filePath,
       urlFilePath path_join (Link.url link) (Options.directory options)
       = Ok filePath
       /\ fileExists statAsync filePath = Ok true) ->
  select path_join statAsync options links = Ok defaultLink.
Proof.
  intros Hshuffle Hsort Hprobe.
  unfold select. rewrite Hshuffle.
  destruct (selectLink_known Hsort) as [f ->].
  unfold Promise_filter. rewrite filter_result_none.
  - reflexivity.
  - intros link Hin. destruct (Hprobe link Hin) as (filePath & Hpath & Hexists).
    unfold not_downloaded. rewrite Hpath. simpl. rewrite Hexists. reflexivity.
Qed.

Lemma all_downloaded_gives_sentinel_witness :
  select slash_join every_path_a_file shuffle_top [early; late] = Ok defaultLink.
Proof.
  apply all_downloaded_gives_sentinel.
  - reflexivity.
  - left. reflexivity.
  - intros link [<- | [<- | []]]; eexists; split; reflexivity.
Defined.

(** ** The parsers *)

Lemma digit_value_digit (c : N) :
  is_digit c = true -> (0 <= digit_value c < 10)%Z.
Proof.
  intros H. unfold digit_value. rewrite H.
  apply is_digit_range in H. lia.
Qed.

Lemma digits_value_nonneg (ds : jsstring) :
  Forall (fun c => is_digit c = true) ds -> (0 <= digits_value 10 ds)%Z.
Proof.
  unfold digits_value.
  assert (G : forall acc, (0 <= acc)%Z ->
              Forall (fun c => is_digit c = true) ds ->
              (0 <= fold_left (fun a c => a * 10 + digit_value c) ds acc)%Z).
  { induction ds as [ | c ds IH]; intros acc Hacc Hall; simpl.
    - assumption.
    - inversion Hall as [ | ? ? Hc Hds]; subst.
      apply IH; [ | assumption].
      pose proof (@digit_value_digit c Hc). lia. }
  apply G. lia.
Qed.

(** The double of an integer below 2^53 is the integer. *)
Lemma nearest_double_exact (z : Z) :
  (0 <= z < 2 ^ 53)%Z -> nearest_double z = z.
Proof.
  intros [H0 H53]. unfold nearest_double.
  replace (Z.leb (Z.log2 z + 1) 53) with true; [reflexivity | ].
  symmetry. apply Z.leb_le.
  destruct (Z.eq_dec z 0) as [-> | Hz]; [simpl; lia | ].
  assert (Z.log2 z < 53)%Z by (apply Z.log2_lt_pow2; lia). lia.
Qed.

Lemma nearest_double_nonneg (z : Z) : (0 <= z)%Z -> (0 <= nearest_double z)%Z.
Proof.
  intros H. unfold nearest_double.
  destruct (Z.leb (Z.log2 z + 1) 53); [assumption | ].
  apply Z.shiftl_nonneg.
  assert (0 <= Z.shiftr z (Z.log2 z + 1 - 53))%Z by now apply Z.shiftr_nonneg.
  destruct (_ || _)%bool; lia.
Qed.

Section Doubles.

Local Open Scope Z_scope.

(** [nearest_double] keeps at most 53 significant bits and moves its
    argument by at most half a unit of the last one. *)
Lemma nearest_double_near (z : Z) :
  (0 <= z)%Z ->
  exists q e : Z,
    nearest_double z = (q * 2 ^ e)%Z
    /\ (0 <= q <= 2 ^ 53)%Z
    /\ e = Z.max 0 (Z.log2 z + 1 - 53)
    /\ (2 * Z.abs (nearest_double z - z) <= 2 ^ e)%Z.
Proof.
  intros Hz. unfold nearest_double.
  destruct (Z.leb (Z.log2 z + 1) 53) eqn:Hb.
  - apply Z.leb_le in Hb. exists z, 0%Z.
    rewrite Z.max_l by lia. rewrite Z.pow_0_r.
    repeat split; try lia.
    destruct (Z.eq_dec z 0) as [-> | Hn]; [lia | ].
    assert (z < 2 ^ 53)%Z by (apply Z.log2_lt_pow2; lia). lia.
  - apply Z.leb_gt in Hb.
    set (e := (Z.log2 z + 1 - 53)%Z).
    assert (He : (1 <= e)%Z) by (unfold e; lia).
    assert (Hpos : (0 < z)%Z).
    { destruct (Z.eq_dec z 0) as [-> | Hn]; [simpl in Hb; lia | lia]. }
    rewrite !Z.shiftl_mul_pow2 by lia. rewrite Z.shiftr_div_pow2 by lia.
    rewrite Z.mul_1_l.
    assert (HP : (2 ^ e = 2 * 2 ^ (e - 1))%Z).
    { rewrite <- Z.pow_succ_r by lia. f_equal. lia. }
    assert (Hh : (0 < 2 ^ (e - 1))%Z) by (apply Z.pow_pos_nonneg; lia).
    pose proof (Z.log2_spec z Hpos) as [Hlow Hhigh].
    assert (Hsplit : (2 ^ Z.succ (Z.log2 z) = 2 ^ 53 * 2 ^ e)%Z).
    { rewrite <- Z.pow_add_r by lia. f_equal. unfold e. lia. }
    assert (H53 : (0 < 2 ^ 53)%Z) by (apply Z.pow_pos_nonneg; lia).
    pose proof (Z.div_mod z (2 ^ e) ltac:(lia)) as Hdm.
    pose proof (Z.mod_pos_bound z (2 ^ e) ltac:(lia)) as Hmod.
    set (q := (z / 2 ^ e)%Z) in *.
    set (r := (z mod 2 ^ e)%Z) in *.
    assert (Hq : (0 <= q < 2 ^ 53)%Z).
    { split.
      - unfold q. apply Z.div_pos; lia.
      - apply Z.div_lt_upper_bound; lia. }
    replace (z - q * 2 ^ e)%Z with r by lia.
    exists (if (Z.ltb (2 ^ (e - 1)) r || (Z.eqb (2 ^ (e - 1)) r && Z.odd q))%bool
            then (q + 1)%Z else q), e.
    split; [reflexivity | ].
    split; [destruct (_ || _)%bool; lia | ].
    split; [rewrite Z.max_r by lia; reflexivity | ].
    destruct (Z.ltb (2 ^ (e - 1)) r) eqn:Hlt; cbn [orb].
    + apply Z.ltb_lt in Hlt. nia.
    + apply Z.ltb_ge in Hlt.
      destruct (Z.eqb (2 ^ (e - 1)) r) eqn:Heq; cbn [andb].
      * apply Z.eqb_eq in Heq. destruct (Z.odd q); nia.
      * nia.
Qed.

End Doubles.

Lemma to_double_exact (z : Z) :
  (0 <= z < 2 ^ 53)%Z -> to_double z = Num (JInt z).
Proof.
  intros H. unfold to_double.
  rewrite Z.abs_eq by lia. rewrite nearest_double_exact by assumption.
  replace (Z.leb (2 ^ 1024) z) with false.
  - f_equal. f_equal. destruct (Z.eq_dec z 0) as [-> | Hz]; [reflexivity | ].
    rewrite Z.sgn_pos by lia. lia.
  - symmetry. apply Z.leb_gt.
    assert (2 ^ 53 < 2 ^ 1024)%Z by (apply Z.pow_lt_mono_r; lia). lia.
Qed.

(** The double of an integer that is not negative is [Infinity] or an
    integer that is not negative. *)
Lemma to_double_nonneg (z : Z) :
  (0 <= z)%Z ->
  to_double z = PosInfinity
  \/ exists m : Z, to_double z = Num (JInt m) /\ (0 <= m)%Z.
Proof.
  intros H. unfold to_double.
  pose proof (@nearest_double_nonneg (Z.abs z) (Z.abs_nonneg z)) as Hm.
  replace (Z.ltb z 0) with false by (symmetry; apply Z.ltb_ge; assumption).
  destruct (Z.leb (2 ^ 1024) (nearest_double (Z.abs z))); [now left | right].
  eexists. split; [reflexivity | ].
  destruct (Z.eq_dec z 0) as [-> | Hz]; [reflexivity | ].
  rewrite Z.sgn_pos by lia. lia.
Qed.

(** On a run of decimal digits that is not empty, [parseInt] is the
    double of the decimal value of the run. *)
Lemma parseInt_digits (ds : jsstring) :
  ds <> [] -> Forall (fun c => is_digit c = true) ds ->
  parseInt ds = to_double (digits_value 10 ds).
Proof.
  intros Hne Hall.
  destruct ds as [ | c r]; [contradiction | ].
  inversion Hall as [ | ? ? Hc Hr]; subst.
  pose proof Hc as Hrange. apply is_digit_range in Hrange.
  unfold parseInt.
  simpl span. rewrite (@digit_not_space c Hc). simpl snd.
  unfold strip_sign.
  replace (N.eqb c 45) with false by (symmetry; apply N.eqb_neq; lia).
  replace (N.eqb c 43) with false by (symmetry; apply N.eqb_neq; lia).
  assert (Hprefix : strip_radix_prefix (c :: r) = (10%Z, c :: r)).
  { unfold strip_radix_prefix. destruct r as [ | x r']; [reflexivity | ].
    inversion Hr as [ | ? ? Hx _]; subst. apply is_digit_range in Hx.
    replace (N.eqb x 120) with false by (symmetry; apply N.eqb_neq; lia).
    replace (N.eqb x 88) with false by (symmetry; apply N.eqb_neq; lia).
    rewrite Bool.andb_false_r. reflexivity. }
  rewrite Hprefix.
  rewrite span_all.
  - cbn [fst]. rewrite Z.mul_1_l. reflexivity.
  - eapply Forall_impl; [ | exact Hall].
    intros a Ha. unfold is_radix_digit. rewrite Ha. simpl.
    apply Z.ltb_lt. pose proof (@digit_value_digit a Ha). lia.
Qed.

Lemma resolution_attempt_groups (s : jsstring) (m : list jsstring) :
  resolution_attempt s = Some m ->
  exists full w h,
    m = [full; w; h]
    /\ w <> [] /\ Forall (fun c => is_digit c = true) w
    /\ h <> [] /\ Forall (fun c => is_digit c = true) h.
Proof.
  unfold resolution_attempt. intros H.
  destruct s as [ | open r0]; [discriminate | ].
  destruct (N.eqb open 91); [ | discriminate].
  destruct (span is_space r0) as [s1 r1].
  destruct (span is_digit r1) as [w r2] eqn:Hw.
  destruct w as [ | w0 w']; [discriminate | ].
  destruct (span is_space r2) as [s2 r3].
  destruct r3 as [ | times r4]; [discriminate | ].
  destruct (is_times times); [ | discriminate].
  destruct (span is_space r4) as [s3 r5].
  destruct (span is_digit r5) as [h r6] eqn:Hh.
  destruct h as [ | h0 h']; [discriminate | ].
  destruct (span is_space r6) as [s4 r7].
  destruct r7 as [ | close r8]; [discriminate | ].
  destruct (N.eqb close 93); [ | discriminate].
  injection H as <-.
  apply span_spec in Hw. apply span_spec in Hh.
  do 3 eexists. split; [reflexivity | ].
  repeat split; (discriminate || tauto).
Qed.

(** C9, as the source has it.  The groups of the expression are [\d+], and
    [0] is a digit; [parseInt] gives the double of the value of a group.
    When [parseResolution] returns a result, its width and its height are
    each an integer that is not negative, or [Infinity]. *)
Theorem parseResolution_not_negative (title : jsstring) (r : Resolution.t) :
  parseResolution title = Some r ->
  (Resolution.width r = PosInfinity
   \/ exists w : Z, Resolution.width r = Num (JInt w) /\ (0 <= w)%Z)
  /\ (Resolution.height r = PosInfinity
      \/ exists h : Z, Resolution.height r = Num (JInt h) /\ (0 <= h)%Z).
Proof.
  unfold parseResolution, match_resolution.
  rewrite match_resolution_regex.
  destruct (search resolution_attempt title) as [m | ] eqn:Hm; [ | discriminate].
  destruct (@search_some _ _ _ _ Hm) as [t Ht].
  destruct (@resolution_attempt_groups _ _ Ht)
    as (full & w & h & -> & Hw & Hwd & Hh & Hhd).
  unfold item. cbn [List.length Nat.ltb Nat.leb nth].
  intros H. injection H as <-.
  rewrite (@parseInt_digits w Hw Hwd), (@parseInt_digits h Hh Hhd).
  cbn [Resolution.width Resolution.height].
  split; apply to_double_nonneg; apply digits_value_nonneg; assumption.
Qed.

Lemma parseResolution_not_negative_witness :
  (Resolution.width (Resolution.make (JInt 1920) (JInt 1080)) = PosInfinity
   \/ exists w : Z,
        Resolution.width (Resolution.make (JInt 1920) (JInt 1080))
        = Num (JInt w) /\ (0 <= w)%Z)
  /\ (Resolution.height (Resolution.make (JInt 1920) (JInt 1080)) = PosInfinity
      \/ exists h : Z,
           Resolution.height (Resolution.make (JInt 1920) (JInt 1080))
           = Num (JInt h) /\ (0 <= h)%Z).
Proof.
  apply (@parseResolution_not_negative (str "Sunset over the bay [1920x1080]")).
  reflexivity.
Defined.

(** C9 as the specification words it fails: the title [[0x0]] has a
    resolution, whose width and height are 0. *)
Lemma parseResolution_zero_by_zero :
  parseResolution (str "[0x0]") = Some (Resolution.make (JInt 0) (JInt 0))
  /\ ~ (exists w h : Z,
          Resolution.make (JInt 0) (JInt 0) = Resolution.make (JInt w) (JInt h)
          /\ (0 < w)%Z /\ (0 < h)%Z).
Proof.
  split; [reflexivity | ].
  intros (w & h & H & Hw & _). injection H as <- _. lia.
Qed.

(** ** File types *)

Lemma word_is_ascii (c : N) : is_word c = true -> is_ascii c = true.
Proof.
  rewrite is_word_spec. unfold is_ascii. rewrite N.ltb_lt. lia.
Qed.

Lemma lower_ascii_word (c : N) :
  is_word c = true -> is_lower_word (lower_ascii c) = true.
Proof.
  rewrite is_word_spec, is_lower_word_spec. unfold lower_ascii, is_upper.
  destruct (in_range 65 90 c) eqn:E.
  - apply in_range_spec in E. lia.
  - intros H.
    assert (~ (65 <= c <= 90)%N)
      by (rewrite <- in_range_spec, E; discriminate).
    lia.
Qed.

Lemma lower_word_is_word (c : N) : is_lower_word c = true -> is_word c = true.
Proof. rewrite is_word_spec, is_lower_word_spec. lia. Qed.

Lemma lower_word_not_upper (c : N) :
  is_lower_word c = true -> is_upper c = false.
Proof.
  rewrite is_lower_word_spec. intros H.
  apply Bool.not_true_is_false. unfold is_upper. rewrite in_range_spec. lia.
Qed.

(** Lower-casing a string of word characters leaves [[a-z0-9_]] only. *)
Lemma toLowerCase_word (ul : jsstring -> jsstring) (s : jsstring) :
  Forall (fun c => is_word c = true) s ->
  Forall (fun c => is_lower_word c = true) (toLowerCase ul s).
Proof.
  intros H. unfold toLowerCase.
  assert (Ha : forallb is_ascii s = true).
  { apply forallb_forall. intros c Hc.
    apply word_is_ascii. rewrite Forall_forall in H. auto. }
  rewrite Ha. apply Forall_map.
  eapply Forall_impl; [ | exact H]. apply lower_ascii_word.
Qed.

Lemma file_attempt_ext (s : jsstring) (a : list jsstring) :
  file_attempt s = Some a ->
  Forall (fun c => is_word c = true) (item a 2).
Proof.
  unfold file_attempt. intros H.
  destruct (span is_name s) as [name r1].
  destruct name as [ | n0 name']; [discriminate | ].
  destruct r1 as [ | dot r2]; [discriminate | ].
  destruct (N.eqb dot 46); [ | discriminate].
  destruct (span is_word r2) as [ext r3] eqn:Hext.
  destruct ext as [ | e0 ext']; [discriminate | ].
  apply span_spec in Hext. destruct Hext as [Hext _].
  destruct r3 as [ | c r4].
  - injection H as <-. exact Hext.
  - destruct (N.eqb c 63 || N.eqb c 35)%bool; [ | discriminate].
    injection H as <-. exact Hext.
Qed.

Lemma parseType_lower_word (ul : jsstring -> jsstring) (url : option jsstring)
  (type : jsstring) :
  parseType ul url = Ok type ->
  Forall (fun c => is_lower_word c = true) type.
Proof.
  unfold parseType, matchFile, method, bind.
  destruct url as [u | ]; [ | discriminate].
  rewrite match_file_regex.
  destruct (search file_attempt u) as [a | ] eqn:Hs.
  - destruct (@search_some _ _ _ _ Hs) as [t Ht].
    apply file_attempt_ext in Ht.
    destruct (Nat.ltb 1 (List.length a)).
    + destruct (Nat.ltb 2 (List.length a)); intros H; injection H as <-.
      * apply toLowerCase_word. assumption.
      * constructor.
    + intros H; injection H as <-. constructor.
  - intros H; injection H as <-. constructor.
Qed.

(** The file type of a candidate is made of [[a-z0-9_]]. *)
Lemma candidate_type (ul : jsstring -> jsstring) (data : Data.t) (link : Link.t) :
  candidate ul data = Ok link ->
  exists type, Link.type link = Some type
               /\ Forall (fun c => is_lower_word c = true) type.
Proof.
  unfold candidate, bind.
  destruct (method (Data.domain data) (toLowerCase ul)); [ | discriminate].
  destruct (parseType ul (Data.url data)) as [type | ] eqn:Ht; [ | discriminate].
  destruct (method (Data.title data) parseResolution); [ | discriminate].
  intros H. injection H as <-. simpl.
  eexists. split; [reflexivity | ].
  apply toLowerCase_word.
  eapply Forall_impl; [ | exact (parseType_lower_word _ _ Ht)].
  apply lower_word_is_word.
Qed.

Lemma str_eqb_eq (a b : jsstring) : str_eqb a b = true <-> a = b.
Proof.
  revert b. induction a as [ | x a IH]; destruct b as [ | y b]; simpl;
    try (split; (reflexivity || discriminate)).
  rewrite Bool.andb_true_iff, N.eqb_eq, IH.
  split; [intros [-> ->]; reflexivity | intros H; injection H; auto].
Qed.

Lemma indexOf_from_In (l : list jsstring) (x : jsstring) (i : Z) :
  (0 <= i)%Z -> ((0 <= indexOf_from l x i)%Z <-> In x l).
Proof.
  revert i. induction l as [ | y l IH]; intros i Hi; simpl.
  - split; [lia | tauto].
  - destruct (str_eqb y x) eqn:E.
    + apply str_eqb_eq in E. split; [auto | lia].
    + rewrite IH by lia. split; [auto | ].
      intros [H | H]; [ | assumption].
      apply str_eqb_eq in H. congruence.
Qed.

Lemma upper_entry_not_lower_word (entry : jsstring) :
  existsb is_upper entry = true ->
  ~ Forall (fun c => is_lower_word c = true) entry.
Proof.
  intros H Hall. apply existsb_exists in H. destruct H as (c & Hin & Hup).
  rewrite Forall_forall in Hall.
  rewrite (lower_word_not_upper c (Hall c Hin)) in Hup. discriminate.
Qed.

Lemma types_clause_membership (options : Options.t) (link : Link.t) :
  types_clause options link = true <->
  Options.types options = None \/ Options.types options = Some []
  \/ exists types type,
       Options.types options = Some types /\ Link.type link = Some type
       /\ In type types.
Proof.
  unfold types_clause.
  destruct (Options.types options) as [types | ]; [ | tauto].
  destruct types as [ | t types]; [simpl; tauto | ].
  cbn [List.length Nat.eqb orb]. rewrite Z.leb_le.
  destruct (Link.type link) as [type | ]; cbn [indexOf].
  - rewrite indexOf_from_In by lia. split.
    + intros H. right; right. exists (t :: types), type. auto.
    + intros [H | [H | (types' & type' & H1 & H2 & H3)]]; try discriminate.
      injection H1 as <-. injection H2 as <-. assumption.
  - split; [lia | ].
    intros [H | [H | (types' & type' & _ & H & _)]]; discriminate.
Qed.

(** C10.  [assignConfig] lower-cases [domains] and, where [types] would
    be expected, a [files] key; [types] is left as the caller supplied it
    (or as it was), and no clause of the filter reads [files].  The type clause is membership of the link's
    type in [types], by strict equality.  A candidate's type is made of
    [[a-z0-9_]], so an entry with an upper-case letter equals the type of
    no candidate, [indexOf] never finds it, and a list of such entries
    lets no candidate pass. *)
Theorem types_entries_never_normalized
  (unicode_lower : jsstring -> jsstring) (expandTilde : jsstring -> jsstring)
  (current : Options.t) (user : UserOptions.t)
  (data : Data.t) (link : Link.t) (entry : jsstring) :
  candidate unicode_lower data = Ok link ->
  existsb is_upper entry = true ->
  let options := assignConfig unicode_lower expandTilde current user in
  Options.types options = own (UserOptions.types user) (Options.types current)
  /\ Options.domains options
     = option_map (List.map (toLowerCase unicode_lower))
         (own (UserOptions.domains user) (Options.domains current))
  /\ Options.files options
     = option_map (List.map (toLowerCase unicode_lower))
         (own (UserOptions.files user) (Options.files current))
  /\ (forall files,
        passes unicode_lower (with_files files options) link
        = passes unicode_lower options link)
  /\ (types_clause options link = true <->
      Options.types options = None \/ Options.types options = Some []
      \/ exists types type,
           Options.types options = Some types /\ Link.type link = Some type
           /\ In type types)
  /\ Link.type link <> Some entry
  /\ indexOf [entry] (Link.type link) = (-1)%Z
  /\ (forall types,
        Options.types options = Some types -> types <> [] ->
        Forall (fun t => existsb is_upper t = true) types ->
        types_clause options link = false).
Proof.
  intros Hc Hup options.
  destruct (candidate_type _ _ Hc) as (type & Htype & Hlow).
  assert (Hne : forall t, existsb is_upper t = true -> type <> t).
  { intros t Ht ->. exact (@upper_entry_not_lower_word _ Ht Hlow). }
  split; [reflexivity | ].
  split; [reflexivity | ].
  split; [reflexivity | ].
  split; [reflexivity | ].
  split; [apply types_clause_membership | ].
  split; [rewrite Htype; intros H; injection H as H; exact (Hne _ Hup H) | ].
  split.
  - rewrite Htype. simpl.
    destruct (str_eqb entry type) eqn:E; [ | reflexivity].
    apply str_eqb_eq in E. symmetry in E. elim (Hne _ Hup E).
  - intros types Htypes Hnil Hall.
    apply Bool.not_true_is_false. rewrite types_clause_membership.
    intros [H | [H | (types' & type' & H1 & H2 & H3)]].
    + congruence.
    + congruence.
    + rewrite Htypes in H1. injection H1 as <-.
      rewrite Htype in H2. injection H2 as <-.
      rewrite Forall_forall in Hall. exact (Hne _ (Hall _ H3) eq_refl).
Qed.

Lemma types_entries_never_normalized_witness :
  Options.types
    (assignConfig (fun s => s) (fun s => s)
       (defaults slash_join (str "/home/me")) upper_case_types)
  = Some [str "PNG"]
  /\ Link.type png_link <> Some (str "PNG")
  /\ types_clause
       (assignConfig (fun s => s) (fun s => s)
          (defaults slash_join (str "/home/me")) upper_case_types)
       png_link = false.
Proof.
  destruct (@types_entries_never_normalized (fun s => s) (fun s => s)
              (defaults slash_join (str "/home/me")) upper_case_types
              png_data png_link (str "PNG") eq_refl eq_refl)
    as (H1 & _ & _ & _ & _ & H5 & _ & H7).
  split; [exact H1 | split; [exact H5 | ]].
  apply (H7 [str "PNG"]).
  - reflexivity.
  - discriminate.
  - repeat constructor.
Defined.


(** * Further properties of the program *)

(** ** [parseResolution]: which titles have a resolution *)

Lemma search_split (A : Type) (attempt : jsstring -> option A) (s : jsstring)
  (m : A) :
  search attempt s = Some m ->
  exists pre t, s = pre ++ t /\ attempt t = Some m.
Proof.
  induction s as [ | c s IH]; simpl; intros H.
  - destruct (attempt []) eqn:E; [ | discriminate].
    exists [], []. split; [reflexivity | congruence].
  - destruct (attempt (c :: s)) eqn:E.
    + exists [], (c :: s). split; [reflexivity | congruence].
    + destruct (IH H) as (pre & t & -> & Ht).
      exists (c :: pre), t. split; [reflexivity | assumption].
Qed.

Lemma forallb_Forall (p : N -> bool) (s : jsstring) :
  forallb p s = true <-> Forall (fun c => p c = true) s.
Proof. rewrite forallb_forall, Forall_forall. reflexivity. Qed.

Lemma span_stops (p : N -> bool) (s a b : jsstring) :
  span p s = (a, b) -> stops p b.
Proof.
  revert a b. induction s as [ | c s IH]; intros a b H; simpl in H.
  - injection H as <- <-. exact I.
  - destruct (p c) eqn:Hc.
    + destruct (span p s) as [a' b'] eqn:Hs.
      injection H as <- <-. exact (IH a' b' eq_refl).
    + injection H as <- <-. exact Hc.
Qed.

Lemma span_app_stops (p : N -> bool) (a b : jsstring) :
  forallb p a = true -> stops p b -> span p (a ++ b) = (a, b).
Proof.
  intros Ha Hb. induction a as [ | c a IH]; simpl in *.
  - destruct b as [ | c b]; [reflexivity | ]. simpl in Hb. simpl. rewrite Hb. reflexivity.
  - apply Bool.andb_true_iff in Ha. destruct Ha as [Hc Ha].
    rewrite Hc, (IH Ha). reflexivity.
Qed.

Lemma stops_app (p q : N -> bool) (a b : jsstring) :
  (forall c, q c = true -> p c = false) ->
  forallb q a = true -> stops p b -> stops p (a ++ b).
Proof.
  intros Hpq Ha Hb. destruct a as [ | c a]; [exact Hb | ].
  simpl in *. apply Bool.andb_true_iff in Ha. apply Hpq, Ha.
Qed.

Lemma stops_cons (p : N -> bool) (c : N) (s : jsstring) :
  p c = false -> stops p (c :: s).
Proof. trivial. Qed.

Lemma times_not_digit (c : N) : is_times c = true -> is_digit c = false.
Proof.
  intros H. destruct (is_digit c) eqn:E; [ | reflexivity].
  rewrite (digit_not_times c E) in H. discriminate.
Qed.

Lemma resolution_attempt_shape (s : jsstring) (m : list jsstring) :
  resolution_attempt s = Some m ->
  exists s1 w s2 times s3 h s4 post,
    s = bracketed s1 w s2 times s3 h s4 ++ post
    /\ m = [bracketed s1 w s2 times s3 h s4; w; h]
    /\ forallb is_space s1 = true /\ forallb is_space s2 = true
    /\ forallb is_space s3 = true /\ forallb is_space s4 = true
    /\ is_times times = true
    /\ w <> [] /\ forallb is_digit w = true
    /\ h <> [] /\ forallb is_digit h = true.
Proof.
  unfold resolution_attempt. intros H.
  destruct s as [ | open r0]; [discriminate | ].
  destruct (N.eqb_spec open 91) as [-> | ]; [ | discriminate].
  destruct (span is_space r0) as [s1 r1] eqn:H1.
  destruct (span is_digit r1) as [w r2] eqn:Hw.
  destruct w as [ | w0 w']; [discriminate | ].
  destruct (span is_space r2) as [s2 r3] eqn:H2.
  destruct r3 as [ | times r4]; [discriminate | ].
  destruct (is_times times) eqn:Htimes; [ | discriminate].
  destruct (span is_space r4) as [s3 r5] eqn:H3.
  destruct (span is_digit r5) as [h r6] eqn:Hh.
  destruct h as [ | h0 h']; [discriminate | ].
  destruct (span is_space r6) as [s4 r7] eqn:H4.
  destruct r7 as [ | close r8]; [discriminate | ].
  destruct (N.eqb_spec close 93) as [-> | ]; [ | discriminate].
  injection H as <-.
  apply span_spec in H1, Hw, H2, H3, Hh, H4.
  destruct H1 as [A1 ->], Hw as [Aw ->], H2 as [A2 ->], H3 as [A3 ->],
    Hh as [Ah ->], H4 as [A4 ->].
  exists s1, (w0 :: w'), s2, times, s3, (h0 :: h'), s4, r8.
  unfold bracketed. rewrite !forallb_Forall.
  repeat split; try assumption; try discriminate.
  simpl. f_equal. rewrite <- !app_assoc. simpl.
  repeat (f_equal; rewrite <- ?app_assoc; simpl). 
Qed.

Lemma forallb_implies (p q : N -> bool) (s : jsstring) :
  (forall c, p c = true -> q c = true) ->
  forallb p s = true -> forallb q s = true.
Proof.
  intros H. rewrite !forallb_forall. auto.
Qed.

(** X1: [parseResolution] is sound: a result comes from a bracketed pair of
    digit runs in the title, and is the pair of the doubles of their
    decimal values, which below 2^53 are the values themselves. *)
Theorem parseResolution_sound (title : jsstring) (r : Resolution.t) :
  parseResolution title = Some r ->
  exists pre s1 w s2 times s3 h s4 post,
    title = pre ++ bracketed s1 w s2 times s3 h s4 ++ post
    /\ forallb is_space (s1 ++ s2 ++ s3 ++ s4) = true
    /\ is_times times = true
    /\ w <> [] /\ forallb is_digit w = true
    /\ h <> [] /\ forallb is_digit h = true
    /\ r = Resolution.make (to_double (digits_value 10 w))
                           (to_double (digits_value 10 h))
    /\ ((digits_value 10 w < 2 ^ 53)%Z ->
        Resolution.width r = Num (JInt (digits_value 10 w)))
    /\ ((digits_value 10 h < 2 ^ 53)%Z ->
        Resolution.height r = Num (JInt (digits_value 10 h))).
Proof.
  unfold parseResolution, match_resolution.
  rewrite match_resolution_regex.
  destruct (search resolution_attempt title) as [m | ] eqn:Hm; [ | discriminate].
  destruct (@search_split _ _ _ _ Hm) as (pre & t & -> & Ht).
  destruct (@resolution_attempt_shape _ _ Ht)
    as (s1 & w & s2 & times & s3 & h & s4 & post & -> & -> & H1 & H2 & H3 & H4
        & Htimes & Hw & Hwd & Hh & Hhd).
  unfold item. cbn [List.length Nat.ltb Nat.leb nth].
  intros H. injection H as <-.
  exists pre, s1, w, s2, times, s3, h, s4, post.
  rewrite !forallb_app, H1, H2, H3, H4.
  rewrite (@parseInt_digits w Hw (proj1 (forallb_Forall _ _) Hwd)).
  rewrite (@parseInt_digits h Hh (proj1 (forallb_Forall _ _) Hhd)).
  cbn [Resolution.width Resolution.height].
  repeat split; try assumption; intros Hsmall; apply to_double_exact;
    (split; [ | assumption]); apply digits_value_nonneg;
    apply forallb_Forall; assumption.
Qed.

Lemma parseResolution_sound_witness :
  exists pre s1 w s2 times s3 h s4 post,
    str "Lake [ 2560 * 1440 ] at dawn"
    = pre ++ bracketed s1 w s2 times s3 h s4 ++ post
    /\ forallb is_space (s1 ++ s2 ++ s3 ++ s4) = true
    /\ is_times times = true
    /\ w <> [] /\ forallb is_digit w = true
    /\ h <> [] /\ forallb is_digit h = true
    /\ Resolution.make (JInt 2560) (JInt 1440)
       = Resolution.make (to_double (digits_value 10 w))
                         (to_double (digits_value 10 h))
    /\ ((digits_value 10 w < 2 ^ 53)%Z ->
        Resolution.width (Resolution.make (JInt 2560) (JInt 1440))
        = Num (JInt (digits_value 10 w)))
    /\ ((digits_value 10 h < 2 ^ 53)%Z ->
        Resolution.height (Resolution.make (JInt 2560) (JInt 1440))
        = Num (JInt (digits_value 10 h))).
Proof.
  apply (@parseResolution_sound (str "Lake [ 2560 * 1440 ] at dawn")).
  reflexivity.
Defined.

Lemma bracketed_app (s1 w s2 : jsstring) (times : N) (s3 h s4 post : jsstring) :
  bracketed s1 w s2 times s3 h s4 ++ post
  = 91%N :: s1 ++ w ++ s2 ++ times :: s3 ++ h ++ s4 ++ 93%N :: post.
Proof.
  unfold bracketed. cbn [app]. f_equal.
  rewrite <- !app_assoc. do 3 f_equal. cbn [app]. f_equal.
  rewrite <- !app_assoc. reflexivity.
Qed.

Lemma resolution_attempt_bracketed (s1 w s2 : jsstring) (times : N)
  (s3 h s4 post : jsstring) :
  forallb is_space s1 = true -> forallb is_space s2 = true ->
  forallb is_space s3 = true -> forallb is_space s4 = true ->
  is_times times = true ->
  w <> [] -> forallb is_digit w = true ->
  h <> [] -> forallb is_digit h = true ->
  resolution_attempt (bracketed s1 w s2 times s3 h s4 ++ post)
  = Some [bracketed s1 w s2 times s3 h s4; w; h].
Proof.
  intros H1 H2 H3 H4 Htimes Hw Hwd Hh Hhd.
  assert (Dw : stops is_space (w ++ s2 ++ times :: s3 ++ h ++ s4 ++ 93%N :: post)).
  { destruct w as [ | c w']; [contradiction | ]. simpl in Hwd |- *.
    apply Bool.andb_true_iff in Hwd. apply digit_not_space, Hwd. }
  assert (Dh : stops is_space (h ++ s4 ++ 93%N :: post)).
  { destruct h as [ | c h']; [contradiction | ]. simpl in Hhd |- *.
    apply Bool.andb_true_iff in Hhd. apply digit_not_space, Hhd. }
  assert (E2 : stops is_digit (s2 ++ times :: s3 ++ h ++ s4 ++ 93%N :: post)).
  { apply (stops_app is_digit is_space); [apply space_not_digit | assumption | ].
    apply stops_cons, times_not_digit, Htimes. }
  assert (E4 : stops is_digit (s4 ++ 93%N :: post)).
  { apply (stops_app is_digit is_space); [apply space_not_digit | assumption | ].
    reflexivity. }
  rewrite bracketed_app. unfold resolution_attempt.
  rewrite N.eqb_refl.
  rewrite (span_app_stops is_space s1 _ H1 Dw).
  rewrite (span_app_stops is_digit w _ Hwd E2).
  destruct w as [ | w0 w']; [contradiction | ].
  rewrite (span_app_stops is_space s2 (times :: _) H2
             (stops_cons is_space _ _ (times_not_space times Htimes))).
  rewrite Htimes.
  rewrite (span_app_stops is_space s3 _ H3 Dh).
  rewrite (span_app_stops is_digit h _ Hhd E4).
  destruct h as [ | h0 h']; [contradiction | ].
  rewrite (span_app_stops is_space s4 (93%N :: post) H4 eq_refl).
  rewrite N.eqb_refl. unfold bracketed. reflexivity.
Qed.

Lemma search_skip (A : Type) (attempt : jsstring -> option A)
  (pre s : jsstring) :
  (forall c t, In c pre -> attempt (c :: t) = None) ->
  search attempt (pre ++ s) = search attempt s.
Proof.
  intros H. induction pre as [ | c pre IH]; [reflexivity | ].
  cbn [app search]. rewrite (H c (pre ++ s)) by (left; reflexivity).
  apply IH. intros c' t Hin. apply H. right. assumption.
Qed.

Lemma search_here (A : Type) (attempt : jsstring -> option A) (s : jsstring)
  (m : A) :
  attempt s = Some m -> search attempt s = Some m.
Proof. intros H. destruct s; simpl; rewrite H; reflexivity. Qed.

(** X2: [parseResolution] is complete: the first opening bracket of a title,
    when it opens a pair of digit runs separated by [x], [X], [*] or the
    multiplication sign, with white space allowed around the runs, gives
    the doubles of their decimal values, whatever follows the closing
    bracket; below 2^53 these are the values themselves. *)
Theorem parseResolution_complete (pre s1 w s2 : jsstring) (times : N)
  (s3 h s4 post : jsstring) :
  existsb (N.eqb 91) pre = false ->
  forallb is_space (s1 ++ s2 ++ s3 ++ s4) = true ->
  is_times times = true ->
  w <> [] -> forallb is_digit w = true ->
  h <> [] -> forallb is_digit h = true ->
  parseResolution (pre ++ bracketed s1 w s2 times s3 h s4 ++ post)
  = Some (Resolution.make (to_double (digits_value 10 w))
                          (to_double (digits_value 10 h)))
  /\ ((digits_value 10 w < 2 ^ 53)%Z -> (digits_value 10 h < 2 ^ 53)%Z ->
      parseResolution (pre ++ bracketed s1 w s2 times s3 h s4 ++ post)
      = Some (Resolution.make (JInt (digits_value 10 w))
                              (JInt (digits_value 10 h)))).
Proof.
  intros Hpre Hs Htimes Hw Hwd Hh Hhd.
  assert (Hall : parseResolution
                   (pre ++ bracketed s1 w s2 times s3 h s4 ++ post)
                 = Some (Resolution.make (to_double (digits_value 10 w))
                                         (to_double (digits_value 10 h)))).
  2: { split; [exact Hall | ]. intros Hsw Hsh. rewrite Hall.
       rewrite (@to_double_exact (digits_value 10 w)), (@to_double_exact (digits_value 10 h));
         [reflexivity | | ]; (split; [ | assumption]);
         apply digits_value_nonneg; apply forallb_Forall; assumption. }
  rewrite !forallb_app, !Bool.andb_true_iff in Hs.
  destruct Hs as (H1 & H2 & H3 & H4).
  unfold parseResolution, match_resolution.
  rewrite match_resolution_regex, search_skip.
  - rewrite (@search_here _ resolution_attempt _ _
               (@resolution_attempt_bracketed s1 w s2 times s3 h s4 post
                  H1 H2 H3 H4 Htimes Hw Hwd Hh Hhd)).
    unfold item. cbn [List.length Nat.ltb Nat.leb nth].
    rewrite (@parseInt_digits w Hw (proj1 (forallb_Forall _ _) Hwd)).
    rewrite (@parseInt_digits h Hh (proj1 (forallb_Forall _ _) Hhd)).
    reflexivity.
  - intros c t Hin. unfold resolution_attempt.
    destruct (N.eqb_spec c 91) as [-> | _]; [ | reflexivity].
    assert (E : existsb (N.eqb 91) pre = true)
      by (apply existsb_exists; exists 91%N; split; [assumption | reflexivity]).
    congruence.
Qed.

Lemma parseResolution_complete_witness :
  parseResolution
    (str "Lake " ++ bracketed (str " ") (str "2560") (str " ") 215
                      [] (str "1440") [] ++ str " [OC]")
  = Some (Resolution.make (to_double (digits_value 10 (str "2560")))
                          (to_double (digits_value 10 (str "1440"))))
  /\ ((digits_value 10 (str "2560") < 2 ^ 53)%Z ->
      (digits_value 10 (str "1440") < 2 ^ 53)%Z ->
      parseResolution
        (str "Lake " ++ bracketed (str " ") (str "2560") (str " ") 215
                          [] (str "1440") [] ++ str " [OC]")
      = Some (Resolution.make (JInt (digits_value 10 (str "2560")))
                              (JInt (digits_value 10 (str "1440"))))).
Proof.
  apply parseResolution_complete;
    first [reflexivity | discriminate].
Defined.

(** ** [matchFile], [parseType], [urlFilePath]: file names and types *)

Ltac decide_tests :=
  repeat match goal with
    | |- context [N.leb ?a ?b] => destruct (N.leb_spec a b); try lia
    | |- context [N.eqb ?a ?b] => destruct (N.eqb_spec a b); try lia
    end.

Lemma is_upper_range (c : N) : is_upper c = true <-> (65 <= c <= 90)%N.
Proof. apply in_range_spec. Qed.

Lemma is_lower_range (c : N) : is_lower c = true <-> (97 <= c <= 122)%N.
Proof. apply in_range_spec. Qed.

Lemma is_word_lower_ascii (c : N) : is_word (lower_ascii c) = is_word c.
Proof.
  unfold lower_ascii. destruct (is_upper c) eqn:E; [ | reflexivity].
  apply is_upper_range in E.
  unfold is_word, is_upper, is_lower, is_digit, in_range.
  decide_tests; reflexivity.
Qed.

Lemma is_space_lower_ascii (c : N) : is_space (lower_ascii c) = is_space c.
Proof.
  unfold lower_ascii. destruct (is_upper c) eqn:E; [ | reflexivity].
  apply is_upper_range in E.
  unfold is_space, in_range.
  decide_tests; reflexivity.
Qed.

Lemma eqb_lower_ascii (c k : N) :
  is_upper k = false -> is_lower k = false ->
  N.eqb (lower_ascii c) k = N.eqb c k.
Proof.
  intros Hu Hl. unfold lower_ascii. destruct (is_upper c) eqn:E; [ | reflexivity].
  destruct (N.eqb_spec c k) as [Hck | _]; [congruence | ].
  destruct (N.eqb_spec (c + 32) k) as [Hk | _]; [ | reflexivity].
  apply is_upper_range in E.
  assert (is_lower (c + 32) = true) by (apply is_lower_range; lia).
  congruence.
Qed.

Lemma is_name_lower_ascii (c : N) : is_name (lower_ascii c) = is_name c.
Proof.
  unfold is_name.
  rewrite is_word_lower_ascii, is_space_lower_ascii.
  rewrite !eqb_lower_ascii by reflexivity. reflexivity.
Qed.

Lemma lower_upper_ascii (c : N) : lower_ascii (upper_ascii c) = lower_ascii c.
Proof.
  unfold upper_ascii. destruct (is_lower c) eqn:E; [ | reflexivity].
  apply is_lower_range in E. unfold lower_ascii.
  assert (Hu : is_upper (c - 32) = true) by (apply is_upper_range; lia).
  assert (Hn : is_upper c = false).
  { apply Bool.not_true_is_false. rewrite is_upper_range. lia. }
  rewrite Hu, Hn. lia.
Qed.

Lemma lower_lower_ascii (c : N) : lower_ascii (lower_ascii c) = lower_ascii c.
Proof.
  unfold lower_ascii. destruct (is_upper c) eqn:E; [ | rewrite E; reflexivity].
  apply is_upper_range in E.
  assert (Hn : is_upper (c + 32) = false).
  { apply Bool.not_true_is_false. rewrite is_upper_range. lia. }
  rewrite Hn. reflexivity.
Qed.

Section CaseMap.

(** A map of code units that changes nothing but the case of ASCII
    letters. *)
Variable f : N -> N.
Hypothesis f_case : forall c, lower_ascii (f c) = lower_ascii c.

Lemma is_word_case (c : N) : is_word (f c) = is_word c.
Proof. rewrite <- is_word_lower_ascii, f_case. apply is_word_lower_ascii. Qed.

Lemma is_name_case (c : N) : is_name (f c) = is_name c.
Proof. rewrite <- is_name_lower_ascii, f_case. apply is_name_lower_ascii. Qed.

Lemma eqb_case (c k : N) :
  is_upper k = false -> is_lower k = false -> N.eqb (f c) k = N.eqb c k.
Proof.
  intros Hu Hl. rewrite <- (@eqb_lower_ascii (f c) k Hu Hl), f_case.
  apply eqb_lower_ascii; assumption.
Qed.

Lemma span_case (p : N -> bool) (s : jsstring) :
  (forall c, p (f c) = p c) ->
  span p (List.map f s)
  = (List.map f (fst (span p s)), List.map f (snd (span p s))).
Proof.
  intros Hp. induction s as [ | c s IH]; [reflexivity | ].
  cbn [List.map span]. rewrite Hp. destruct (p c); [ | reflexivity].
  rewrite IH. destruct (span p s). reflexivity.
Qed.

Lemma file_attempt_case (s : jsstring) :
  file_attempt (List.map f s)
  = option_map (List.map (List.map f)) (file_attempt s).
Proof.
  unfold file_attempt.
  rewrite (span_case is_name s is_name_case).
  destruct (span is_name s) as [name r1]. cbn [fst snd].
  destruct name as [ | n0 name']; [reflexivity | ].
  destruct r1 as [ | dot r2]; [reflexivity | ].
  cbn [List.map]. rewrite eqb_case by reflexivity.
  destruct (N.eqb dot 46); [ | reflexivity].
  rewrite (span_case is_word r2 is_word_case).
  destruct (span is_word r2) as [ext r3]. cbn [fst snd].
  destruct ext as [ | e0 ext']; [reflexivity | ].
  destruct r3 as [ | c r4].
  - cbn [List.map option_map]. rewrite map_app. reflexivity.
  - cbn [List.map]. rewrite !eqb_case by reflexivity.
    destruct (N.eqb c 63 || N.eqb c 35)%bool; [ | reflexivity].
    cbn [List.map option_map]. rewrite map_app. cbn [List.map].
    rewrite map_app. reflexivity.
Qed.

Lemma search_file_attempt_case (s : jsstring) :
  search file_attempt (List.map f s)
  = option_map (List.map (List.map f)) (search file_attempt s).
Proof.
  induction s as [ | c s IH].
  - reflexivity.
  - pose proof (file_attempt_case (c :: s)) as E. cbn [List.map] in E.
    cbn [List.map search]. rewrite E.
    destruct (file_attempt (c :: s)); [reflexivity | ].
    cbn [option_map]. exact IH.
Qed.

Lemma toLowerCase_case (ul : jsstring -> jsstring) (s : jsstring) :
  Forall (fun c => is_word c = true) s ->
  toLowerCase ul (List.map f s) = toLowerCase ul s.
Proof.
  intros H. unfold toLowerCase.
  assert (Ha : forallb is_ascii s = true).
  { apply forallb_forall. intros c Hc. apply word_is_ascii.
    rewrite Forall_forall in H. auto. }
  assert (Hb : forallb is_ascii (List.map f s) = true).
  { apply forallb_forall. intros c Hc. apply in_map_iff in Hc.
    destruct Hc as (c' & <- & Hc'). apply word_is_ascii.
    rewrite is_word_case. rewrite Forall_forall in H. auto. }
  rewrite Ha, Hb, map_map. apply map_ext. exact f_case.
Qed.

Lemma parseType_case (ul : jsstring -> jsstring) (url : jsstring) :
  parseType ul (Some (List.map f url)) = parseType ul (Some url).
Proof.
  unfold parseType, matchFile, method, bind.
  rewrite !match_file_regex, search_file_attempt_case.
  destruct (search file_attempt url) as [a | ] eqn:Hs; [ | reflexivity].
  cbn [option_map]. rewrite length_map. unfold jsstring in *.
  destruct (Nat.ltb 1 (List.length a)); [ | reflexivity].
  rewrite length_map.
  destruct (Nat.ltb 2 (List.length a)) eqn:Hlen; [ | reflexivity].
  f_equal. unfold item.
  change [] with (List.map f []). rewrite map_nth.
  apply toLowerCase_case.
  destruct (@search_some _ _ _ _ Hs) as [t Ht].
  exact (@file_attempt_ext _ _ Ht).
Qed.

End CaseMap.

(** X3: The type of a URL does not depend on the case of its ASCII letters:
    upper-casing or lower-casing them leaves [parseType] as it is. *)
Theorem parseType_ignores_case (unicode_lower : jsstring -> jsstring)
  (url : jsstring) :
  parseType unicode_lower (Some (List.map upper_ascii url))
  = parseType unicode_lower (Some url)
  /\ parseType unicode_lower (Some (List.map lower_ascii url))
     = parseType unicode_lower (Some url).
Proof.
  split.
  - apply parseType_case, lower_upper_ascii.
  - apply parseType_case, lower_lower_ascii.
Qed.

Lemma file_attempt_shape (s : jsstring) (a : list jsstring) :
  file_attempt s = Some a ->
  exists name ext tail rest,
    a = [name ++ 46%N :: ext ++ tail; name; ext; tail]
    /\ s = name ++ 46%N :: ext ++ rest
    /\ name <> [] /\ forallb is_name name = true
    /\ ext <> [] /\ forallb is_word ext = true.
Proof.
  unfold file_attempt. intros H.
  destruct (span is_name s) as [name r1] eqn:Hname.
  destruct name as [ | n0 name']; [discriminate | ].
  destruct r1 as [ | dot r2]; [discriminate | ].
  destruct (N.eqb_spec dot 46) as [-> | ]; [ | discriminate].
  destruct (span is_word r2) as [ext r3] eqn:Hext.
  destruct ext as [ | e0 ext']; [discriminate | ].
  apply span_spec in Hname, Hext.
  destruct Hname as [An ->], Hext as [Ae ->].
  apply forallb_Forall in An, Ae.
  destruct r3 as [ | c r4].
  - injection H as <-.
    exists (n0 :: name'), (e0 :: ext'), [], [].
    rewrite !app_nil_r. repeat split; (assumption || discriminate).
  - destruct (N.eqb c 63 || N.eqb c 35)%bool; [ | discriminate].
    injection H as <-.
    exists (n0 :: name'), (e0 :: ext'), [c], (c :: r4).
    repeat split; (assumption || discriminate).
Qed.

Lemma name_not_separator (c : N) : is_name c = true -> is_separator c = false.
Proof.
  intros H. unfold is_separator.
  rewrite (N.eqb_sym c 47), (N.eqb_sym c 92).
  rewrite (@class_excludes is_name 47 c eq_refl H).
  rewrite (@class_excludes is_name 92 c eq_refl H). reflexivity.
Qed.

Lemma word_is_name (c : N) : is_word c = true -> is_name c = true.
Proof. intros H. unfold is_name. rewrite H. reflexivity. Qed.

(** X4: [urlFilePath] either throws, when the URL has no [name.ext] part, or
    returns a path: [undefined] is never its result.  The path joins the
    directory with [name.ext], where [name] is a run of [[\w,\s-]] and
    [ext] a run of [[\w]] taken from the URL; the file name holds no [/]
    and no [\], and its extension, lower-cased, is what [parseType]
    returns. *)
Theorem urlFilePath_result (unicode_lower : jsstring -> jsstring)
  (path_join : jsstring -> jsstring -> jsstring) (url directory : jsstring) :
  (matchFile (Some url) = Ok None
   /\ urlFilePath path_join (Some url) directory = Throw TypeError
   /\ parseType unicode_lower (Some url) = Ok [])
  \/ exists pre name ext post,
       url = pre ++ name ++ 46%N :: ext ++ post
       /\ name <> [] /\ forallb is_name name = true
       /\ ext <> [] /\ forallb is_word ext = true
       /\ existsb is_separator (name ++ 46%N :: ext) = false
       /\ urlFilePath path_join (Some url) directory
          = Ok (Some (path_join directory (name ++ 46%N :: ext)))
       /\ parseType unicode_lower (Some url) = Ok (List.map lower_ascii ext).
Proof.
  unfold urlFilePath, parseType, matchFile, method, bind.
  rewrite match_file_regex.
  destruct (search file_attempt url) as [a | ] eqn:Hs.
  - right.
    destruct (@search_split _ _ _ _ Hs) as (pre & t & -> & Ht).
    destruct (@file_attempt_shape _ _ Ht)
      as (name & ext & tail & rest & -> & -> & Hn & Hnd & He & Hed).
    exists pre, name, ext, rest.
    cbn [List.length Nat.ltb Nat.leb]. unfold item. cbn [nth].
    repeat split; try assumption.
    + apply Bool.not_true_is_false. intros H.
      apply existsb_exists in H. destruct H as (c & Hin & Hc).
      apply in_app_or in Hin. destruct Hin as [Hin | [<- | Hin]].
      * rewrite forallb_forall in Hnd.
        rewrite (name_not_separator c (Hnd c Hin)) in Hc. discriminate.
      * discriminate.
      * rewrite forallb_forall in Hed.
        rewrite (name_not_separator c (word_is_name c (Hed c Hin))) in Hc.
        discriminate.
    + f_equal. unfold toLowerCase.
      replace (forallb is_ascii ext) with true; [reflexivity | ].
      symmetry. apply forallb_forall. intros c Hc.
      apply word_is_ascii. rewrite forallb_forall in Hed. auto.
  - left. repeat split.
Qed.

(** ** [heat] and [controversy]: what they depend on *)

Section Ranking.
Local Open Scope R_scope.

Lemma heat_of_integers (link : Link.t) (s t : Z) :
  Link.score link = JInt s -> Link.createdUtc link = JInt t ->
  heat link
  = Fin (IZR (Int_part (signed_order s + (IZR t - 1134028003) / 45000 + / 2))).
Proof.
  intros Hs Ht. unfold heat. rewrite Hs, Ht. simpl ToNumber.
  rewrite Math_max_Fin.
  assert (Hm : 1 <= Rmax (IZR s) 1) by apply Rmax_r.
  rewrite Math_log10_Fin by lra.
  unfold n_sub. simpl n_neg. simpl n_add at 2.
  rewrite n_div_Fin by lra.
  unfold jlt, jgt, signed_order.
  destruct (Z.ltb 0 s); [ | destruct (Z.ltb s 0)];
    simpl; do 3 f_equal; unfold Rminus; lra.
Qed.


Lemma heat_without_createdUtc (link : Link.t) :
  (forall t, Link.createdUtc link <> JInt t) -> heat link = NaN.
Proof.
  intros H. unfold heat.
  destruct (Link.createdUtc link) as [ | | t]; [ | | elim (H t); reflexivity].
  - simpl ToNumber. simpl n_sub. simpl n_div. rewrite n_add_NaN_r. reflexivity.
  - simpl ToNumber. simpl n_sub. simpl n_div. rewrite n_add_NaN_r. reflexivity.
Qed.


Lemma signed_order_flat (s : Z) : (s <= 1)%Z -> signed_order s = 0.
Proof.
  intros H. unfold signed_order.
  assert (Hm : Rmax (IZR s) 1 = 1) by (apply Rmax_right, IZR_le; assumption).
  rewrite Hm, ln_1. lra.
Qed.

Lemma signed_order_log (s : Z) :
  (1 <= s)%Z -> signed_order s = ln (IZR s) / ln 10.
Proof.
  intros H. unfold signed_order.
  assert (Hs : 1 <= IZR s) by (apply IZR_le; assumption).
  rewrite Rmax_left by assumption.
  destruct (Z.ltb_spec 0 s); [lra | lia].
Qed.

Lemma signed_order_monotone (s1 s2 : Z) :
  (s1 <= s2)%Z -> signed_order s1 <= signed_order s2.
Proof.
  intros H. pose proof ln_10_pos as H10.
  destruct (Z.le_gt_cases s1 1) as [H1 | H1].
  - rewrite (signed_order_flat H1).
    destruct (Z.le_gt_cases s2 1) as [H2 | H2].
    + rewrite (signed_order_flat H2). lra.
    + rewrite signed_order_log by lia.
      apply log10_nonneg, IZR_le. lia.
  - rewrite !signed_order_log by lia.
    assert (Hs1 : 1 < IZR s1) by (apply IZR_lt; lia).
    assert (Hs : IZR s1 <= IZR s2) by (apply IZR_le; assumption).
    assert (ln (IZR s1) <= ln (IZR s2)).
    { destruct Hs as [Hlt | ->]; [left; apply ln_increasing; lra | lra]. }
    unfold Rdiv. apply Rmult_le_compat_r; [ | assumption].
    left. apply Rinv_0_lt_compat. assumption.
Qed.

(** X7: [heat] does not tell a score of 1, of 0 or below 0 apart: the sign of
    a negative score multiplies [log10(max(score, 1))], which is 0. *)
Theorem heat_flat_up_to_one (link : Link.t) (s : Z) :
  (s <= 1)%Z ->
  heat (with_score (JInt s) link) = heat (with_score (JInt 0) link).
Proof.
  intros H.
  destruct (Link.createdUtc link) as [ | | t] eqn:Ht.
  - rewrite !heat_without_createdUtc; [reflexivity | | ];
      simpl; rewrite Ht; discriminate.
  - rewrite !heat_without_createdUtc; [reflexivity | | ];
      simpl; rewrite Ht; discriminate.
  - rewrite (@heat_of_integers (with_score (JInt s) link) s t eq_refl Ht).
    rewrite (@heat_of_integers (with_score (JInt 0) link) 0 t eq_refl Ht).
    rewrite (signed_order_flat H), (@signed_order_flat 0) by lia.
    reflexivity.
Qed.

Lemma heat_flat_up_to_one_witness :
  heat (with_score (JInt (-500)) early) = heat (with_score (JInt 0) early).
Proof. apply heat_flat_up_to_one. lia. Defined.

(** X8: [heat] never decreases when the score grows and the creation time
    stays. *)
Theorem heat_monotone_in_score (link : Link.t) (s1 s2 : Z) :
  (s1 <= s2)%Z ->
  n_gt (heat (with_score (JInt s1) link)) (heat (with_score (JInt s2) link))
  = false.
Proof.
  intros H.
  destruct (Link.createdUtc link) as [ | | t] eqn:Ht.
  - rewrite (@heat_without_createdUtc (with_score (JInt s1) link));
      [reflexivity | simpl; rewrite Ht; discriminate].
  - rewrite (@heat_without_createdUtc (with_score (JInt s1) link));
      [reflexivity | simpl; rewrite Ht; discriminate].
  - rewrite (@heat_of_integers (with_score (JInt s1) link) s1 t eq_refl Ht).
    rewrite (@heat_of_integers (with_score (JInt s2) link) s2 t eq_refl Ht).
    pose proof (signed_order_monotone H) as Hk.
    apply Bool.not_true_is_false. rewrite n_gt_Fin.
    assert (Hz : (Int_part (signed_order s1 + (IZR t - 1134028003) / 45000 + / 2)
                  <= Int_part (signed_order s2 + (IZR t - 1134028003) / 45000 + / 2))%Z)
      by (apply Int_part_le; lra).
    apply IZR_le in Hz. lra.
Qed.

Lemma heat_monotone_in_score_witness :
  n_gt (heat (with_score (JInt 150) early)) (heat (with_score (JInt 90000) early))
  = false.
Proof. apply heat_monotone_in_score. lia. Defined.

Lemma heat_monotone_witness :
  n_gt (heat (with_createdUtc (JInt 1500000000) early))
       (heat (with_createdUtc (JInt 1500000600) early))
  = false.
Proof. apply heat_monotone. lia. Defined.

End Ranking.

Section Controversy.
Local Open Scope R_scope.

Lemma n_add_comm (a b : num) : n_add a b = n_add b a.
Proof.
  destruct a, b; try reflexivity. simpl. f_equal. apply Rplus_comm.
Qed.

(** X9: [controversy] is symmetric: exchanging the two vote counts does not
    change it, whatever they are. *)
Theorem controversy_symmetric (ups downs : jsint) (link : Link.t) :
  controversy (with_votes ups downs link)
  = controversy (with_votes downs ups link).
Proof.
  unfold controversy, with_votes; cbn [Link.ups Link.downs].
  rewrite (Bool.orb_comm (jlt ups (JInt 0))).
  destruct (jlt downs (JInt 0) || jlt ups (JInt 0))%bool; [reflexivity | ].
  rewrite (n_add_comm (ToNumber downs)).
  destruct ups as [ | | u], downs as [ | | d]; try reflexivity.
  unfold jgt.
  destruct (Z.ltb_spec d u), (Z.ltb_spec u d); try reflexivity; try lia.
  assert (u = d) by lia. subst. reflexivity.
Qed.




End Controversy.

(** ** The fold: who can win *)

Lemma selectLink_picks (sort : jsstring) (f : Link.t -> Link.t -> Link.t) :
  selectLink sort = Ok f -> forall x y, f x y = x \/ f x y = y.
Proof.
  unfold selectLink. intros H x y.
  destruct (str_eqb sort (str "top"));
    [injection H as <-; destruct (jgt _ _); auto | ].
  destruct (str_eqb sort (str "hot"));
    [injection H as <-; destruct (n_gt _ _); auto | ].
  destruct (str_eqb sort (str "controversial"));
    [injection H as <-; destruct (n_gt _ _); auto | ].
  destruct (str_eqb sort (str "new"));
    [injection H as <-; destruct (jgt _ _); auto | discriminate].
Qed.

Lemma fold_left_picks (A : Type) (f : A -> A -> A) (l : list A) (a : A) :
  (forall x y, f x y = x \/ f x y = y) ->
  fold_left f l a = a \/ In (fold_left f l a) l.
Proof.
  intros Hf. revert a. induction l as [ | c l IH]; intros a; simpl.
  - left. reflexivity.
  - destruct (IH (f a c)) as [H | H].
    + rewrite H. destruct (Hf a c) as [-> | ->]; auto.
    + right. right. assumption.
Qed.

(** X11: The fold invents nothing: its result is the sentinel or one of the
    links it was given. *)
Theorem winner_is_a_candidate (sort : jsstring) (links : list Link.t)
  (winner : Link.t) :
  reduce_links sort links = Ok winner ->
  winner = defaultLink \/ In winner links.
Proof.
  unfold reduce_links, bind.
  destruct (selectLink sort) as [f | e] eqn:Hf; [ | discriminate].
  intros H. injection H as <-.
  apply fold_left_picks. exact (selectLink_picks _ Hf).
Qed.

Lemma winner_is_a_candidate_witness :
  late = defaultLink \/ In late [early; late].
Proof.
  apply (@winner_is_a_candidate (str "top") [early; late] late).
  reflexivity.
Defined.

(** A fold that keeps the greater of two integer keys ends on a key that
    none of the folded keys exceeds. *)
Lemma fold_left_greatest (key : Link.t -> jsint) (l : list Link.t) (a : Link.t) :
  is_integer_value (key a) = true ->
  forallb (fun c => is_integer_value (key c)) l = true ->
  let w := fold_left (fun x y => if jgt (key x) (key y) then x else y) l a in
  is_integer_value (key w) = true
  /\ jgt (key a) (key w) = false
  /\ forallb (fun c => negb (jgt (key c) (key w))) l = true.
Proof.
  revert a. induction l as [ | c l IH]; intros a Ha Hl; cbn [fold_left forallb].
  - repeat split; [assumption | apply jgt_irrefl].
  - cbn [forallb] in Hl. apply Bool.andb_true_iff in Hl. destruct Hl as [Hc Hl].
    set (a' := if jgt (key a) (key c) then a else c).
    assert (Ha' : is_integer_value (key a') = true)
      by (unfold a'; destruct (jgt (key a) (key c)); assumption).
    destruct (IH a' Ha' Hl) as (Hw & Hle & Hall). cbv zeta in *.
    set (w := fold_left _ l a') in *.
    assert (Hac : jgt (key a) (key a') = false /\ jgt (key c) (key a') = false).
    { unfold a'. destruct (key a) as [ | | ka] eqn:Eka; try discriminate.
      destruct (key c) as [ | | kc] eqn:Ekc; try discriminate.
      cbn [jgt]. destruct (Z.ltb_spec kc ka); rewrite ?Eka, ?Ekc; cbn [jgt];
        split; apply Z.ltb_ge; lia. }
    destruct Hac as [Haa' Hca'].
    assert (Htrans : forall x, is_integer_value (key x) = true ->
                               jgt (key x) (key a') = false ->
                               jgt (key x) (key w) = false).
    { intros x Hx Hxa. revert Hw Hle Hxa Ha'.
      destruct (key x) as [ | | kx]; try discriminate.
      destruct (key a') as [ | | ka']; try discriminate.
      destruct (key w) as [ | | kw]; try discriminate.
      cbn [jgt]. rewrite !Z.ltb_ge. lia. }
    repeat split; [assumption | auto | ].
    apply Bool.andb_true_iff. split; [ | assumption].
    rewrite (Htrans c Hc Hca'). reflexivity.
Qed.

(** X12: Under ['top'], when every link has a score, no link has a score
    greater than the winner's, and the winner's score is not negative. *)
Theorem top_winner_has_greatest_score (links : list Link.t) (winner : Link.t) :
  forallb (fun c => is_integer_value (Link.score c)) links = true ->
  reduce_links (str "top") links = Ok winner ->
  forallb (fun c => negb (jgt (Link.score c) (Link.score winner))) links = true
  /\ jlt (Link.score winner) (JInt 0) = false.
Proof.
  intros Hl. rewrite reduce_links_top. intros H. apply Ok_inj in H. subst winner.
  destruct (@fold_left_greatest Link.score links defaultLink eq_refl Hl)
    as (_ & H0 & Hall).
  split; assumption.
Qed.

Lemma top_winner_has_greatest_score_witness :
  forallb (fun c => negb (jgt (Link.score c) (Link.score late)))
    [early; downvoted; late] = true
  /\ jlt (Link.score late) (JInt 0) = false.
Proof.
  apply top_winner_has_greatest_score; reflexivity.
Defined.

(** X13: Under ['new'], when every link has a creation time, no link is newer
    than the winner. *)
Theorem new_winner_is_newest (links : list Link.t) (winner : Link.t) :
  forallb (fun c => is_integer_value (Link.createdUtc c)) links = true ->
  reduce_links (str "new") links = Ok winner ->
  forallb (fun c => negb (jgt (Link.createdUtc c) (Link.createdUtc winner)))
    links = true
  /\ jlt (Link.createdUtc winner) (JInt 0) = false.
Proof.
  intros Hl. rewrite reduce_links_new. intros H. apply Ok_inj in H. subst winner.
  destruct (@fold_left_greatest Link.createdUtc links defaultLink eq_refl Hl)
    as (_ & H0 & Hall).
  split; assumption.
Qed.

Lemma new_winner_is_newest_witness :
  forallb (fun c => negb (jgt (Link.createdUtc c) (Link.createdUtc late)))
    [late; early; downvoted] = true
  /\ jlt (Link.createdUtc late) (JInt 0) = false.
Proof.
  apply new_winner_is_newest; reflexivity.
Defined.

Lemma heat_without_numbers (link : Link.t) : heat (without_numbers link) = NaN.
Proof. reflexivity. Qed.

Lemma controversy_without_numbers (link : Link.t) :
  controversy (without_numbers link) = NaN.
Proof. reflexivity. Qed.

(** X14: A link whose listing entry has no [score], [ups], [downs] and
    [created_utc] wins over everything folded before it, under every sort:
    a comparison with [undefined] or [NaN] is false, and the comparator
    then returns the new link. *)
Theorem link_without_numbers_wins (sort : jsstring) (links : list Link.t)
  (link : Link.t) :
  In sort known_sorts ->
  reduce_links sort (links ++ [without_numbers link])
  = Ok (without_numbers link).
Proof.
  intros [<- | [<- | [<- | [<- | []]]]].
  - rewrite reduce_links_top, fold_left_app. cbn [fold_left].
    change (Link.score (without_numbers link)) with JUndefined.
    destruct (Link.score _); reflexivity.
  - rewrite reduce_links_hot, fold_left_app. cbn [fold_left].
    rewrite heat_without_numbers, n_gt_NaN_r. reflexivity.
  - rewrite reduce_links_controversial, fold_left_app. cbn [fold_left].
    rewrite controversy_without_numbers, n_gt_NaN_r. reflexivity.
  - rewrite reduce_links_new, fold_left_app. cbn [fold_left].
    change (Link.createdUtc (without_numbers link)) with JUndefined.
    destruct (Link.createdUtc _); reflexivity.
Qed.

Lemma link_without_numbers_wins_witness :
  reduce_links (str "top") ([early; late] ++ [without_numbers downvoted])
  = Ok (without_numbers downvoted).
Proof.
  apply link_without_numbers_wins. left. reflexivity.
Defined.

Lemma controversy_zero_votes (link : Link.t) :
  controversy (with_votes (JInt 0) (JInt 0) link) = NaN.
Proof.
  unfold controversy, with_votes; cbn [Link.ups Link.downs].
  change (jlt (JInt 0) (JInt 0)) with false.
  change (jgt (JInt 0) (JInt 0)) with false.
  cbn [orb ToNumber].
  rewrite n_div_zero_zero. apply Math_pow_NaN.
Qed.

(** X15: Under ['controversial'], a link with no vote at all wins over
    everything folded before it: its controversy is [NaN], and no
    accumulator is greater than [NaN]. *)
Theorem link_without_votes_wins_controversial (links : list Link.t)
  (link : Link.t) :
  reduce_links (str "controversial")
    (links ++ [with_votes (JInt 0) (JInt 0) link])
  = Ok (with_votes (JInt 0) (JInt 0) link).
Proof.
  rewrite reduce_links_controversial, fold_left_app. cbn [fold_left].
  rewrite controversy_zero_votes, n_gt_NaN_r. reflexivity.
Qed.

Lemma str_eqb_neq (a b : jsstring) : a <> b -> str_eqb a b = false.
Proof.
  intros H. apply Bool.not_true_is_false. rewrite str_eqb_eq. assumption.
Qed.

Lemma selectLink_unknown (sort : jsstring) :
  ~ In sort known_sorts ->
  selectLink sort = Throw (Error (str "Unknown sort " ++ sort)).
Proof.
  intros H. unfold selectLink.
  rewrite !str_eqb_neq; [reflexivity | | | | ];
    intros ->; apply H; unfold known_sorts; simpl; auto.
Qed.

Lemma select_unknown
  (path_join : jsstring -> jsstring -> jsstring)
  (statAsync : jsstring -> result Stats.t)
  (options : Options.t) (links : list Link.t) :
  ~ In (Options.sort options) known_sorts ->
  select path_join statAsync options links
  = Throw (Error (str "Unknown sort " ++ Options.sort options)).
Proof.
  intros H. unfold select, reduce_links, bind.
  rewrite (selectLink_unknown H).
  destruct (Options.shuffle options); reflexivity.
Qed.

(** X16: A sort other than the four the program knows makes the selection
    throw [Unknown sort], with or without [shuffle], whatever the links
    are and even when there is none. *)
Theorem unknown_sort_throws
  (path_join : jsstring -> jsstring -> jsstring)
  (statAsync : jsstring -> result Stats.t)
  (options : Options.t) (links : list Link.t) :
  ~ In (Options.sort options) known_sorts ->
  select path_join statAsync options links
  = Throw (Error (str "Unknown sort " ++ Options.sort options))
  /\ reduce_links (Options.sort options) links
     = Throw (Error (str "Unknown sort " ++ Options.sort options)).
Proof.
  intros H. split; [apply select_unknown; assumption | ].
  unfold reduce_links, bind. rewrite (selectLink_unknown H). reflexivity.
Qed.

Lemma unknown_sort_throws_witness :
  select slash_join nothing_on_disk (with_sort (str "rising") shuffle_top) []
  = Throw (Error (str "Unknown sort rising"))
  /\ reduce_links (str "rising") [] = Throw (Error (str "Unknown sort rising")).
Proof.
  apply (@unknown_sort_throws slash_join nothing_on_disk
           (with_sort (str "rising") shuffle_top) []).
  unfold known_sorts. cbn [In Options.sort with_sort].
  intros [H | [H | [H | [H | []]]]]; discriminate H.
Defined.

(** ** The selection as a whole *)

Lemma filter_result_In (A : Type) (f : A -> result bool) (l kept : list A) :
  filter_result f l = Ok kept ->
  forall a, In a kept <-> In a l /\ f a = Ok true.
Proof.
  revert kept. induction l as [ | x l IH]; intros kept H a; simpl in H.
  - injection H as <-. simpl. tauto.
  - unfold bind in H. destruct (f x) as [b | ] eqn:Hx; [ | discriminate].
    destruct (filter_result f l) as [kept' | ] eqn:Hl; [ | discriminate].
    injection H as <-. specialize (IH kept' eq_refl a).
    destruct b; simpl; rewrite ?IH.
    + split.
      * intros [<- | [H1 H2]]; auto.
      * intros [[<- | H1] H2]; auto.
    + split.
      * intros [H1 H2]; auto.
      * intros [[<- | H1] H2]; [congruence | auto].
Qed.

(** X17: The link a selection is fulfilled with is the sentinel or a candidate
    of the listings that passes the filter; with [shuffle] on, it is
    moreover one whose file the probe did not find. *)
Theorem selected_link_passed_the_filter
  (unicode_lower : jsstring -> jsstring)
  (path_join : jsstring -> jsstring -> jsstring)
  (statAsync : jsstring -> result Stats.t)
  (options : Options.t) (subreddits : list Subreddit.t) (winner : Link.t) :
  selectWallpaperLink unicode_lower path_join statAsync options subreddits
  = Ok winner ->
  winner = defaultLink
  \/ exists all,
       candidates unicode_lower subreddits = Ok all
       /\ In winner all
       /\ passes unicode_lower options winner = Ok true
       /\ (Options.shuffle options = true ->
           exists filePath,
             urlFilePath path_join (Link.url winner) (Options.directory options)
             = Ok filePath
             /\ fileExists statAsync filePath = Ok false).
Proof.
  unfold selectWallpaperLink, bind.
  destruct (candidates unicode_lower subreddits) as [all | ] eqn:Hall;
    [ | discriminate].
  destruct (filter_result (passes unicode_lower options) all) as [links | ] eqn:Hf;
    [ | discriminate].
  pose proof (filter_result_In _ _ Hf) as Hin.
  unfold select, reduce_links, then_, bind, Promise_filter.
  destruct (Options.shuffle options) eqn:Hshuffle.
  - destruct (selectLink (Options.sort options)) as [f | ] eqn:Hsel; [ | discriminate].
    destruct (filter_result (not_downloaded path_join statAsync options) links)
      as [remaining | ] eqn:Hr; [ | discriminate].
    intros H. injection H as <-.
    destruct (fold_left_picks f remaining defaultLink (selectLink_picks _ Hsel))
      as [-> | Hw]; [left; reflexivity | right].
    apply (filter_result_In _ _ Hr) in Hw. destruct Hw as [Hw Hprobe].
    apply Hin in Hw. destruct Hw as [Hw Hpass].
    exists all. repeat split; try assumption.
    intros _. revert Hprobe. unfold not_downloaded, then_, bind.
    destruct (urlFilePath path_join _ _) as [filePath | ]; [ | discriminate].
    destruct (fileExists statAsync filePath) as [[ | ] | ] eqn:He;
      try discriminate.
    intros _. exists filePath. split; [reflexivity | exact He].
  - destruct (selectLink (Options.sort options)) as [f | ] eqn:Hsel; [ | discriminate].
    intros H. injection H as <-.
    destruct (fold_left_picks f links defaultLink (selectLink_picks _ Hsel))
      as [-> | Hw]; [left; reflexivity | right].
    apply Hin in Hw. destruct Hw as [Hw Hpass].
    exists all. repeat split; try assumption. discriminate.
Qed.

Lemma selected_link_passed_the_filter_witness :
  png_link = defaultLink
  \/ exists all,
       candidates (fun s => s) [listing [png_data]] = Ok all
       /\ In png_link all
       /\ passes (fun s => s)
            (assignConfig (fun s => s) (fun s => s)
               (defaults slash_join (str "/home/me")) no_options)
            png_link = Ok true
       /\ (Options.shuffle
             (assignConfig (fun s => s) (fun s => s)
                (defaults slash_join (str "/home/me")) no_options) = true ->
           exists filePath,
             urlFilePath slash_join (Link.url png_link)
               (Options.directory
                  (assignConfig (fun s => s) (fun s => s)
                     (defaults slash_join (str "/home/me")) no_options))
             = Ok filePath
             /\ fileExists nothing_on_disk filePath = Ok false).
Proof.
  apply (@selected_link_passed_the_filter (fun s => s) slash_join nothing_on_disk
           (assignConfig (fun s => s) (fun s => s)
              (defaults slash_join (str "/home/me")) no_options)
           [listing [png_data]] png_link).
  reflexivity.
Defined.

Lemma only_TypeError_Ok (A : Type) (a : A) : only_TypeError (Ok a).
Proof. intros e H. discriminate. Qed.

Lemma only_TypeError_method (A B : Type) (this : option A) (m : A -> B) :
  only_TypeError (method this m).
Proof. intros e. destruct this; simpl; intros H; [discriminate | congruence]. Qed.

Lemma only_TypeError_bind (A B : Type) (r : result A) (k : A -> result B) :
  only_TypeError r -> (forall a, only_TypeError (k a)) ->
  only_TypeError (bind r k).
Proof.
  intros Hr Hk e. destruct r as [a | e']; simpl.
  - apply Hk.
  - intros H. apply Hr. congruence.
Qed.

Lemma only_TypeError_map (A B : Type) (f : A -> result B) (l : list A) :
  (forall a, only_TypeError (f a)) -> only_TypeError (map_result f l).
Proof.
  intros Hf. induction l as [ | a l IH]; simpl.
  - apply only_TypeError_Ok.
  - apply only_TypeError_bind; [apply Hf | intros b].
    apply only_TypeError_bind; [exact IH | intros; apply only_TypeError_Ok].
Qed.

Lemma only_TypeError_filter (A : Type) (f : A -> result bool) (l : list A) :
  (forall a, only_TypeError (f a)) -> only_TypeError (filter_result f l).
Proof.
  intros Hf. induction l as [ | a l IH]; simpl.
  - apply only_TypeError_Ok.
  - apply only_TypeError_bind; [apply Hf | intros b].
    apply only_TypeError_bind; [exact IH | intros; apply only_TypeError_Ok].
Qed.

Lemma only_TypeError_matchFile (url : option jsstring) :
  only_TypeError (matchFile url).
Proof.
  unfold matchFile. apply only_TypeError_bind; [apply only_TypeError_method | ].
  intros [a | ]; [destruct (Nat.ltb 1 _) | ]; apply only_TypeError_Ok.
Qed.

Lemma only_TypeError_parseType (ul : jsstring -> jsstring) (url : option jsstring) :
  only_TypeError (parseType ul url).
Proof.
  unfold parseType. apply only_TypeError_bind; [apply only_TypeError_matchFile | ].
  intros [a | ]; [destruct (Nat.ltb 2 _) | ]; apply only_TypeError_Ok.
Qed.

Lemma only_TypeError_candidates (ul : jsstring -> jsstring)
  (subreddits : list Subreddit.t) :
  only_TypeError (candidates ul subreddits).
Proof.
  unfold candidates.
  apply only_TypeError_bind; [ | intros; apply only_TypeError_Ok].
  apply only_TypeError_map. intros subreddit.
  destruct (listing_children subreddit) as [children | ];
    [ | apply only_TypeError_Ok].
  unfold links_of_listing. apply only_TypeError_bind.
  - apply only_TypeError_filter. intros thing. unfold is_link.
    apply only_TypeError_bind; [apply only_TypeError_method | ].
    intros; apply only_TypeError_Ok.
  - intros things. apply only_TypeError_map. intros thing.
    destruct (Thing.data thing) as [data | ]; [ | intros e H; congruence].
    unfold candidate.
    apply only_TypeError_bind; [apply only_TypeError_method | intros d].
    apply only_TypeError_bind; [apply only_TypeError_parseType | intros t].
    apply only_TypeError_bind; [apply only_TypeError_method | intros r].
    apply only_TypeError_Ok.
Qed.

Lemma only_TypeError_passes (ul : jsstring -> jsstring) (options : Options.t)
  (link : Link.t) :
  only_TypeError (passes ul options link).
Proof.
  unfold passes. destruct (score_clause options link); [ | apply only_TypeError_Ok].
  apply only_TypeError_bind.
  - unfold domains_clause. destruct (Options.domains options) as [ds | ];
      [ | apply only_TypeError_Ok].
    destruct (Nat.eqb _ 0); [apply only_TypeError_Ok | ].
    apply only_TypeError_bind; [apply only_TypeError_method | ].
    intros; apply only_TypeError_Ok.
  - intros [ | ]; apply only_TypeError_Ok.
Qed.

Lemma fileExists_fulfilled (statAsync : jsstring -> result Stats.t)
  (filePath : option jsstring) :
  exists b, fileExists statAsync filePath = Ok b.
Proof.
  unfold fileExists, then_, catch_, bind, Promise_resolve.
  destruct filePath as [[ | c p] | ]; eauto.
  destruct (statAsync (c :: p)); eauto.
Qed.

Lemma only_TypeError_not_downloaded
  (path_join : jsstring -> jsstring -> jsstring)
  (statAsync : jsstring -> result Stats.t)
  (options : Options.t) (link : Link.t) :
  only_TypeError (not_downloaded path_join statAsync options link).
Proof.
  unfold not_downloaded. apply only_TypeError_bind.
  - unfold urlFilePath.
    apply only_TypeError_bind; [apply only_TypeError_matchFile | ].
    intros [a | ]; [destruct (Nat.ltb 2 _); apply only_TypeError_Ok | ].
    intros e H. congruence.
  - intros filePath. unfold then_.
    destruct (fileExists_fulfilled statAsync filePath) as [b ->].
    apply only_TypeError_Ok.
Qed.

(** X18: A selection can fail in two ways only: with a [TypeError], or with
    [Unknown sort] for a sort outside the four.  No failure of
    [fs.statAsync] comes out of it. *)
Theorem selection_errors
  (unicode_lower : jsstring -> jsstring)
  (path_join : jsstring -> jsstring -> jsstring)
  (statAsync : jsstring -> result Stats.t)
  (options : Options.t) (subreddits : list Subreddit.t) (e : error) :
  selectWallpaperLink unicode_lower path_join statAsync options subreddits
  = Throw e ->
  e = TypeError
  \/ (e = Error (str "Unknown sort " ++ Options.sort options)
      /\ ~ In (Options.sort options) known_sorts).
Proof.
  unfold selectWallpaperLink, bind.
  destruct (candidates unicode_lower subreddits) as [all | e1] eqn:Hall.
  2:{ intros H. left. apply (@only_TypeError_candidates unicode_lower subreddits).
      congruence. }
  destruct (filter_result (passes unicode_lower options) all) as [links | e2] eqn:Hf.
  2:{ intros H. left.
      apply (@only_TypeError_filter _ (passes unicode_lower options) all
               (only_TypeError_passes unicode_lower options)).
      congruence. }
  destruct (in_dec (list_eq_dec N.eq_dec) (Options.sort options) known_sorts)
    as [Hknown | Hunknown].
  - destruct (selectLink_known Hknown) as [f Hsel].
    unfold select, reduce_links, then_, bind, Promise_filter. rewrite Hsel.
    destruct (Options.shuffle options); [ | discriminate].
    destruct (filter_result _ links) as [remaining | e3] eqn:Hr; [discriminate | ].
    intros H. left.
    apply (@only_TypeError_filter _ (not_downloaded path_join statAsync options)
             links (only_TypeError_not_downloaded path_join statAsync options)).
    congruence.
  - rewrite (select_unknown path_join statAsync options links Hunknown).
    intros H. injection H as <-. right. split; [reflexivity | assumption].
Qed.

Lemma selection_errors_witness :
  TypeError = TypeError
  \/ (TypeError
      = Error (str "Unknown sort "
               ++ Options.sort
                    (assignConfig (fun s => s) (fun s => s)
                       (defaults slash_join (str "/home/me")) any_image))
      /\ ~ In (Options.sort
                 (assignConfig (fun s => s) (fun s => s)
                    (defaults slash_join (str "/home/me")) any_image))
             known_sorts).
Proof.
  apply (@selection_errors (fun s => s) slash_join nothing_on_disk
           (assignConfig (fun s => s) (fun s => s)
              (defaults slash_join (str "/home/me")) any_image)
           [listing [link_post "https://imgur.com/gallery/abc" "Mountain lake"
                       "imgur.com" 200]]
           TypeError).
  reflexivity.
Defined.

Lemma map_result_app (A B : Type) (f : A -> result B) (a b : list A) :
  map_result f (a ++ b)
  = bind (map_result f a) (fun la =>
      bind (map_result f b) (fun lb => Ok (la ++ lb))).
Proof.
  induction a as [ | x a IH]; cbn [app map_result].
  - unfold bind at 1. cbn [map_result].
    destruct (map_result f b); reflexivity.
  - unfold bind at 1. destruct (f x) as [y | e]; [ | reflexivity].
    rewrite IH. cbn [bind].
    destruct (map_result f a) as [la | e]; [ | reflexivity]. cbn [bind].
    destruct (map_result f b) as [lb | e]; reflexivity.
Qed.

(** X19: The candidates of several listings are those of the first ones
    followed by those of the others, in the order of the listings; a
    listing that makes the normalizer throw makes the whole throw. *)
Theorem candidates_app (unicode_lower : jsstring -> jsstring)
  (first others : list Subreddit.t) :
  candidates unicode_lower (first ++ others)
  = bind (candidates unicode_lower first) (fun la =>
      bind (candidates unicode_lower others) (fun lb => Ok (la ++ lb))).
Proof.
  unfold candidates. rewrite map_result_app. unfold bind.
  destruct (map_result _ first) as [la | e]; [ | reflexivity].
  destruct (map_result _ others) as [lb | e]; [ | reflexivity].
  rewrite concat_app. reflexivity.
Qed.

(** X20: Lowering the score threshold never removes a link from the filter's
    result. *)
Theorem lower_threshold_keeps_links (unicode_lower : jsstring -> jsstring)
  (options : Options.t) (link : Link.t) (t1 t2 : Z) :
  (t1 <= t2)%Z ->
  passes unicode_lower (with_threshold (JInt t2) options) link = Ok true ->
  passes unicode_lower (with_threshold (JInt t1) options) link = Ok true.
Proof.
  intros Ht. unfold passes.
  change (domains_clause unicode_lower (with_threshold (JInt t2) options) link)
    with (domains_clause unicode_lower (with_threshold (JInt t1) options) link).
  change (types_clause (with_threshold (JInt t2) options) link)
    with (types_clause (with_threshold (JInt t1) options) link).
  change (resolution_clause (with_threshold (JInt t2) options) link)
    with (resolution_clause (with_threshold (JInt t1) options) link).
  destruct (score_clause (with_threshold (JInt t2) options) link) eqn:H2;
    [ | discriminate].
  assert (H1 : score_clause (with_threshold (JInt t1) options) link = true).
  { revert H2. unfold score_clause, with_threshold; cbn [Options.score].
    destruct (Link.score link) as [ | | s]; try reflexivity.
    cbn [truthy jge]. destruct (negb (Z.eqb s 0)); [ | reflexivity].
    cbn [negb orb]. rewrite !Z.leb_le. lia. }
  rewrite H1. trivial.
Qed.

Lemma lower_threshold_keeps_links_witness :
  passes (fun s => s) (with_threshold (JInt 100) shuffle_top) png_link = Ok true.
Proof.
  apply (@lower_threshold_keeps_links (fun s => s) shuffle_top png_link 100 250).
  - lia.
  - reflexivity.
Defined.

Lemma indexOf_from_existsb (l : list jsstring) (x : jsstring) (i : Z) :
  (0 <= i)%Z ->
  Z.leb 0 (indexOf_from l x i) = existsb (fun y => str_eqb y x) l.
Proof.
  revert i. induction l as [ | y l IH]; intros i Hi; cbn [indexOf_from existsb].
  - reflexivity.
  - destruct (str_eqb y x); cbn [orb].
    + apply Z.leb_le. assumption.
    + apply IH. lia.
Qed.

Lemma existsb_after_map (A B : Type) (p : B -> bool) (f : A -> B) (l : list A) :
  existsb p (List.map f l) = existsb (fun a => p (f a)) l.
Proof.
  induction l as [ | a l IH]; cbn [List.map existsb]; [ | rewrite IH]; reflexivity.
Qed.

Lemma lower_ascii_is_ascii (c : N) : is_ascii c = true -> is_ascii (lower_ascii c) = true.
Proof.
  unfold is_ascii, lower_ascii. rewrite !N.ltb_lt.
  destruct (is_upper c) eqn:E; [ | trivial].
  apply is_upper_range in E. lia.
Qed.

Lemma toLowerCase_ascii (ul : jsstring -> jsstring) (s : jsstring) :
  forallb is_ascii s = true -> toLowerCase ul s = List.map lower_ascii s.
Proof. intros H. unfold toLowerCase. rewrite H. reflexivity. Qed.

Lemma toLowerCase_twice_ascii (ul : jsstring -> jsstring) (s : jsstring) :
  forallb is_ascii s = true ->
  toLowerCase ul (toLowerCase ul s) = List.map lower_ascii s.
Proof.
  intros H. rewrite (toLowerCase_ascii ul s H).
  rewrite toLowerCase_ascii.
  - rewrite map_map. apply map_ext. apply lower_lower_ascii.
  - rewrite forallb_forall in *. intros c Hc. apply in_map_iff in Hc.
    destruct Hc as (c' & <- & Hc'). apply lower_ascii_is_ascii. auto.
Qed.

(** X21: The domain clause ignores the case of ASCII letters on both sides:
    [assignConfig] lower-cases the configured domains and the normalizer
    lower-cases the link's, so a link passes exactly when some configured
    domain, lower-cased, is the link's domain, lower-cased. *)
Theorem domains_clause_ignores_case
  (unicode_lower : jsstring -> jsstring) (expandTilde : jsstring -> jsstring)
  (current : Options.t) (user : UserOptions.t)
  (data : Data.t) (link : Link.t) (domain : jsstring) (domains : list jsstring) :
  candidate unicode_lower data = Ok link ->
  Data.domain data = Some domain ->
  forallb is_ascii domain = true ->
  UserOptions.domains user = Some (Some domains) ->
  domains <> [] ->
  domains_clause unicode_lower
    (assignConfig unicode_lower expandTilde current user) link
  = Ok (existsb
          (fun entry =>
             str_eqb (toLowerCase unicode_lower entry)
                     (List.map lower_ascii domain))
          domains).
Proof.
  intros Hc Hd Ha Hu Hne.
  assert (Hl : Link.domain link = Some (toLowerCase unicode_lower domain)).
  { revert Hc. unfold candidate, bind. rewrite Hd. cbn [method].
    destruct (parseType unicode_lower (Data.url data)); [ | discriminate].
    destruct (method (Data.title data) parseResolution); [ | discriminate].
    intros H. injection H as <-. reflexivity. }
  unfold domains_clause, assignConfig, Object_assign. cbn [Options.domains].
  rewrite Hu. cbn [own option_map]. rewrite length_map.
  destruct domains as [ | d0 ds]; [contradiction | ].
  cbn [List.length Nat.eqb]. rewrite Hl. cbn [method bind indexOf].
  rewrite (toLowerCase_twice_ascii unicode_lower domain Ha).
  rewrite indexOf_from_existsb by lia.
  rewrite existsb_after_map. reflexivity.
Qed.

Lemma domains_clause_ignores_case_witness :
  domains_clause (fun s => s)
    (assignConfig (fun s => s) (fun s => s)
       (defaults slash_join (str "/home/me"))
       {| UserOptions.subreddits := None; UserOptions.sort := None;
          UserOptions.from := None; UserOptions.score := None;
          UserOptions.domains := Some (Some [str "Flickr.com"; str "I.IMGUR.COM"]);
          UserOptions.types := None; UserOptions.shuffle := None;
          UserOptions.directory := None; UserOptions.resolution := None;
          UserOptions.files := None |})
    png_link
  = Ok (existsb
          (fun entry =>
             str_eqb (toLowerCase (fun s => s) entry)
                     (List.map lower_ascii (str "i.imgur.com")))
          [str "Flickr.com"; str "I.IMGUR.COM"]).
Proof.
  apply (@domains_clause_ignores_case (fun s => s) (fun s => s)
           (defaults slash_join (str "/home/me")) _ png_data png_link
           (str "i.imgur.com") [str "Flickr.com"; str "I.IMGUR.COM"]);
    first [reflexivity | discriminate].
Defined.

(** ** The program around the selection: what it does, and in which order *)

Lemma io_bind_cases (A B : Type) (p : io A) (k : A -> io B)
  (r : result B) (trace : list effect) :
  io_bind p k = (r, trace) ->
  (exists e, p = (Throw e, trace) /\ r = Throw e)
  \/ (exists a t1 t2, p = (Ok a, t1) /\ k a = (r, t2) /\ trace = t1 ++ t2).
Proof.
  unfold io_bind. destruct p as [[a | e] t1].
  - destruct (k a) as [r' t2] eqn:Hk. intros H. injection H as <- <-.
    right. exists a, t1, t2. auto.
  - intros H. injection H as <- <-. left. exists e. auto.
Qed.

Lemma Promise_all_trace (A : Type) (promises : list (io A)) :
  snd (Promise_all promises) = List.concat (List.map snd promises).
Proof.
  induction promises as [ | [r t] rest IH]; [reflexivity | ].
  cbn [Promise_all List.map List.concat].
  destruct (Promise_all rest) as [rs ts]. cbn [snd] in *. now rewrite IH.
Qed.

Lemma Promise_all_fulfilled (A : Type) (promises : list (io A)) (l : list A) :
  fst (Promise_all promises) = Ok l
  <-> Forall2 (fun p a => fst p = Ok a) promises l.
Proof.
  revert l. induction promises as [ | [r t] rest IH]; intros l.
  - cbn. split.
    + intros H. injection H as <-. constructor.
    + intros H. inversion H. reflexivity.
  - cbn [Promise_all]. destruct (Promise_all rest) as [rs ts]. cbn [fst] in *.
    split.
    + intros H. destruct r as [a | e]; [ | discriminate].
      destruct rs as [l' | e]; [ | discriminate].
      injection H as <-. constructor; [reflexivity | ]. now apply IH.
    + intros H. inversion H as [ | p a ps l' Hp Hrest]; subst.
      cbn [fst] in Hp. subst r. apply IH in Hrest. now rewrite Hrest.
Qed.

(** What [urlFilePath] returns is a file of the directory. *)
Lemma urlFilePath_shape (path_join : jsstring -> jsstring -> jsstring)
  (url : option jsstring) (directory : jsstring) (file : option jsstring) :
  urlFilePath path_join url directory = Ok file ->
  exists name ext,
    file = Some (path_join directory (name ++ 46%N :: ext))
    /\ name <> [] /\ ext <> []
    /\ existsb is_separator (name ++ 46%N :: ext) = false.
Proof.
  destruct url as [url | ]; [ | discriminate].
  unfold urlFilePath, matchFile, method, bind.
  rewrite match_file_regex.
  destruct (search file_attempt url) as [a | ] eqn:Hs; [ | discriminate].
  destruct (@search_split _ _ _ _ Hs) as (pre & t & -> & Ht).
  destruct (@file_attempt_shape _ _ Ht)
    as (name & ext & tail & rest & -> & -> & Hn & Hnd & He & Hed).
  cbn [List.length Nat.ltb Nat.leb]. unfold item. cbn [nth].
  intros H. injection H as <-.
  exists name, ext. repeat split; try assumption.
  apply Bool.not_true_is_false. intros H.
  apply existsb_exists in H. destruct H as (c & Hin & Hc).
  apply in_app_or in Hin. destruct Hin as [Hin | [<- | Hin]].
  - rewrite forallb_forall in Hnd.
    rewrite (name_not_separator c (Hnd c Hin)) in Hc. discriminate.
  - discriminate.
  - rewrite forallb_forall in Hed.
    rewrite (name_not_separator c (word_is_name c (Hed c Hin))) in Hc.
    discriminate.
Qed.

(** The calls of a short trace, one by one. *)
Ltac calls H :=
  cbn in H;
  repeat match type of H with
         | _ \/ _ => destruct H as [H | H]
         | False => contradiction H
         end;
  try discriminate H.

Section RunProperties.

Import Program.

Variable unicode_lower : jsstring -> jsstring.
Variable path_join : jsstring -> jsstring -> jsstring.
Variable statAsync : jsstring -> result Stats.t.
Variable mkdirAsync : jsstring -> result unit.
Variable request : jsstring -> result jsstring.
Variable JSON_parse_listing : jsstring -> result Subreddit.t.
Variable request_bytes : option jsstring -> result (list N).
Variable writeFileAsync : option jsstring -> list N -> result unit.
Variable wallpaper_set : option jsstring -> result unit.
Variable notifyAsync : Notification.t -> result unit.
Variable fromNow : jsint -> jsstring.
Variable Number_toString : Z -> jsstring.

Local Abbreviation ensure := (ensureDirectoryExists statAsync mkdirAsync).
Local Abbreviation load := (loadSubreddits request JSON_parse_listing).
Local Abbreviation choose :=
  (selectWallpaperLink unicode_lower path_join statAsync).
Local Abbreviation download :=
  (downloadFile path_join request_bytes writeFileAsync).
Local Abbreviation announce := (notification fromNow Number_toString).
Local Abbreviation program :=
  (run unicode_lower path_join statAsync mkdirAsync request JSON_parse_listing
       request_bytes writeFileAsync wallpaper_set notifyAsync fromNow
       Number_toString).

Lemma directoryExists_fulfilled (directory : jsstring) :
  exists b, directoryExists statAsync directory = Ok b.
Proof.
  unfold directoryExists, catch_, then_, Promise_resolve.
  destruct directory; [eauto | ].
  destruct (statAsync _); cbn; eauto.
Qed.

Lemma directoryExists_true (directory : jsstring) :
  directoryExists statAsync directory = Ok true
  <-> directory <> []
      /\ exists stats, statAsync directory = Ok stats
                       /\ Stats.isDirectory stats = true.
Proof.
  unfold directoryExists, catch_, then_, Promise_resolve.
  destruct directory as [ | c s].
  - split; [discriminate | ]. intros [H _]. now contradiction H.
  - destruct (statAsync (c :: s)) as [stats | e]; cbn.
    + split.
      * intros H. injection H as H. split; [discriminate | eauto].
      * intros [_ (stats' & H & Hd)]. injection H as ->. now rewrite Hd.
    + split; [discriminate | ]. intros [_ (stats' & H & _)]. discriminate.
Qed.

(** X22: [ensureDirectoryExists] calls [fs.mkdirAsync], once and with the
    directory it was given, exactly when [fs.statAsync] does not report a
    directory there: when the path is empty, when [stat] is rejected for
    whatever reason, and when the path is something else than a directory;
    its outcome is then that of [mkdir].  When [stat] reports a directory
    nothing is called and the promise is fulfilled. *)
Theorem ensureDirectoryExists_mkdir_unless_directory (directory : jsstring) :
  ((directory <> []
    /\ exists stats, statAsync directory = Ok stats
                     /\ Stats.isDirectory stats = true)
   /\ ensure directory = (Ok tt, []))
  \/ (~ (directory <> []
         /\ exists stats, statAsync directory = Ok stats
                          /\ Stats.isDirectory stats = true)
      /\ ensure directory = (mkdirAsync directory, [Mkdir directory])).
Proof.
  pose proof (directoryExists_true directory) as Ht.
  unfold ensureDirectoryExists, io_bind, lift, perform.
  destruct (directoryExists_fulfilled directory) as [[ | ] Hb]; rewrite Hb.
  - left. split; [now apply Ht | reflexivity].
  - right. split; [ | reflexivity].
    intros H. apply Ht in H. rewrite Hb in H. discriminate.
Qed.

Lemma loadSubreddit_trace (options : Options.t) (subreddit : jsstring) :
  snd (loadSubreddit request JSON_parse_listing options subreddit)
  = [Request (subreddit_url options subreddit)].
Proof.
  unfold loadSubreddit, io_bind, perform, lift.
  destruct (request _); reflexivity.
Qed.

Lemma loadSubreddit_fulfilled (options : Options.t) (subreddit : jsstring)
  (listing : Subreddit.t) :
  fst (loadSubreddit request JSON_parse_listing options subreddit) = Ok listing
  <-> exists body, request (subreddit_url options subreddit) = Ok body
                   /\ JSON_parse_listing body = Ok listing.
Proof.
  unfold loadSubreddit, io_bind, perform, lift.
  destruct (request _) as [body | e]; cbn [fst].
  - split; [eauto | ]. intros (body' & H & Hp). now injection H as ->.
  - split; [discriminate | ]. intros (body' & H & _). discriminate.
Qed.

Lemma loadSubreddits_trace (options : Options.t) :
  snd (load options)
  = List.map (fun subreddit => Request (subreddit_url options subreddit))
      (Options.subreddits options).
Proof.
  unfold loadSubreddits. rewrite Promise_all_trace.
  induction (Options.subreddits options) as [ | s rest IH]; [reflexivity | ].
  cbn [List.map List.concat]. rewrite loadSubreddit_trace, IH. reflexivity.
Qed.

(** X23: [loadSubreddits] requests the listing of every configured
    subreddit, once each and in the order of the configuration, whether or
    not one of the requests fails; it is fulfilled exactly when every
    request is answered and every answer is read as JSON, and then with
    the listings in the order of the configuration. *)
Theorem loadSubreddits_requests_every_subreddit (options : Options.t) :
  snd (load options)
  = List.map (fun subreddit => Request (subreddit_url options subreddit))
      (Options.subreddits options)
  /\ forall listings,
       fst (load options) = Ok listings
       <-> Forall2
             (fun subreddit listing =>
                exists body,
                  request (subreddit_url options subreddit) = Ok body
                  /\ JSON_parse_listing body = Ok listing)
             (Options.subreddits options) listings.
Proof.
  split; [apply loadSubreddits_trace | ].
  intros listings. unfold loadSubreddits. rewrite Promise_all_fulfilled.
  revert listings.
  induction (Options.subreddits options) as [ | s rest IH]; intros listings.
  - cbn. split; intros H; inversion H; constructor.
  - cbn [List.map]. split; intros H;
      inversion H as [ | x a xs l' Hx Hrest]; subst; constructor.
    + now apply loadSubreddit_fulfilled.
    + now apply IH.
    + now apply loadSubreddit_fulfilled.
    + now apply IH.
Qed.

(** The calls of a download that got as far as [trace]. *)
Lemma downloadFile_cases (url : option jsstring) (directory : jsstring)
  (r : result (option jsstring)) (trace : list effect) :
  download url directory = (r, trace) ->
  (trace = [] /\ exists e, r = Throw e
                           /\ urlFilePath path_join url directory = Throw e)
  \/ exists file,
       urlFilePath path_join url directory = Ok file
       /\ ((trace = [Download url]
            /\ exists e, r = Throw e /\ request_bytes url = Throw e)
           \/ exists data,
                request_bytes url = Ok data
                /\ trace = [Download url; WriteFile file data]
                /\ ((r = Ok file /\ writeFileAsync file data = Ok tt)
                    \/ exists e, r = Throw e
                                 /\ writeFileAsync file data = Throw e)).
Proof.
  unfold downloadFile, io_bind, lift, perform.
  destruct (urlFilePath path_join url directory) as [file | e].
  - intros H. right. exists file. split; [reflexivity | ].
    destruct (request_bytes url) as [data | e].
    + right. exists data. split; [reflexivity | ].
      destruct (writeFileAsync file data) as [[] | e];
        injection H as <- <-; (split; [reflexivity | ]); eauto.
    + left. injection H as <- <-. eauto.
  - intros H. injection H as <- <-. left. eauto.
Qed.

(** The course of a run, step by step. *)
Lemma run_cases (options : Options.t) (r : result Link.t)
  (trace : list effect) :
  program options = (r, trace) ->
  exists late,
    trace = snd (ensure (Options.directory options)) ++ late
    /\ ((late = [] /\ exists e, r = Throw e
                     /\ fst (ensure (Options.directory options)) = Throw e)
        \/ exists rest,
             late = snd (load options) ++ rest
             /\ ((rest = [] /\ exists e, r = Throw e)
                 \/ exists subreddits link stage last,
                      fst (load options) = Ok subreddits
                      /\ choose options subreddits = Ok link
                      /\ download (Link.url link) (Options.directory options)
                         = (stage, last)
                      /\ ((rest = last /\ exists e, stage = Throw e
                                                    /\ r = Throw e)
                          \/ exists file,
                               stage = Ok file
                               /\ ((rest = last ++ [SetWallpaper file]
                                    /\ exists e, r = Throw e
                                       /\ wallpaper_set file = Throw e)
                                   \/ (wallpaper_set file = Ok tt
                                       /\ rest = last ++ [SetWallpaper file;
                                                          Notify (announce link)]
                                       /\ (r = Ok link
                                           \/ exists e, r = Throw e)))))).
Proof.
  unfold run. intros H.
  apply io_bind_cases in H.
  destruct H as [(e & He & ->) | ([] & t0 & t1 & He & H & ->)].
  { exists []. rewrite He. cbn [fst snd]. rewrite app_nil_r.
    split; [reflexivity | ]. left. eauto. }
  exists t1. rewrite He. cbn [snd]. split; [reflexivity | ]. right.
  apply io_bind_cases in H.
  destruct H as [(e & Hl & ->) | (subreddits & t2 & t3 & Hl & H & ->)].
  { exists []. rewrite Hl. cbn [snd]. rewrite app_nil_r.
    split; [reflexivity | ]. left. eauto. }
  exists t3. rewrite Hl. cbn [fst snd]. split; [reflexivity | ].
  apply io_bind_cases in H.
  destruct H as [(e & Hc & ->) | (link & t4 & t5 & Hc & H & ->)].
  { unfold lift in Hc. injection Hc as Hc <-. left. eauto. }
  unfold lift in Hc. injection Hc as Hc <-. cbn [app].
  right. exists subreddits, link.
  apply io_bind_cases in H.
  destruct H as [(e & Hd & ->) | (file & t6 & t7 & Hd & H & ->)].
  { exists (Throw e), t5. repeat split; try assumption. left. eauto. }
  exists (Ok file), t6. repeat split; try assumption. right.
  exists file. split; [reflexivity | ].
  apply io_bind_cases in H. unfold perform in H.
  destruct H as [(e & Hw & ->) | ([] & t8 & t9 & Hw & H & ->)].
  { injection Hw as Hw <-. left. eauto. }
  injection Hw as Hw <-. right. split; [assumption | ].
  apply io_bind_cases in H. unfold notify, perform, lift in H.
  destruct H as [(e & Hn & ->) | ([] & ta & tb & Hn & H & ->)].
  { injection Hn as Hn <-. split; [reflexivity | ]. right. eauto. }
  injection Hn as Hn <-. injection H as <- <-.
  split; [reflexivity | ]. now left.
Qed.

Lemma ensure_only_mkdir (directory : jsstring) (e : effect) :
  In e (snd (ensure directory)) -> e = Mkdir directory.
Proof.
  unfold ensureDirectoryExists, io_bind, lift, perform.
  destruct (directoryExists_fulfilled directory) as [[ | ] ->]; cbn.
  - tauto.
  - intros [<- | []]. reflexivity.
Qed.

Lemma load_only_requests (options : Options.t) (e : effect) :
  In e (snd (load options)) -> exists url, e = Request url.
Proof.
  rewrite loadSubreddits_trace. intros H. apply in_map_iff in H.
  destruct H as (s & <- & _). eauto.
Qed.

(** X24: A run that is fulfilled is fulfilled with the link that
    [selectWallpaperLink] chose among the listings loaded, and has made
    these calls in this order and no other: the [mkdir] of
    [ensureDirectoryExists] if any, one request per subreddit, the
    download of the link's URL, the writing of what was downloaded to the
    file [urlFilePath] names, the setting of the wallpaper to that file,
    and the notification made of the link. *)
Theorem run_fulfilled (options : Options.t) (link : Link.t)
  (trace : list effect) :
  program options = (Ok link, trace) ->
  exists subreddits file data,
    fst (load options) = Ok subreddits
    /\ choose options subreddits = Ok link
    /\ urlFilePath path_join (Link.url link) (Options.directory options)
       = Ok file
    /\ request_bytes (Link.url link) = Ok data
    /\ trace = snd (ensure (Options.directory options))
               ++ snd (load options)
               ++ [Download (Link.url link); WriteFile file data;
                   SetWallpaper file; Notify (announce link)].
Proof.
  intros H. apply run_cases in H.
  destruct H as (late & -> & [(_ & e & He & _) | (rest & -> & H)]);
    [discriminate | ].
  destruct H as [(_ & e & He) | H]; [discriminate | ].
  destruct H as (subreddits & link' & stage & last & Hl & Hc & Hd & H).
  destruct H as [(_ & e & _ & He) | (file & -> & H)]; [discriminate | ].
  destruct H as [(_ & e & He & _) | (_ & -> & [Hr | (e & He)])];
    try discriminate.
  injection Hr as <-.
  apply downloadFile_cases in Hd.
  destruct Hd as [(_ & e & He & _) | (file' & Hu & Hd)]; [discriminate | ].
  destruct Hd as [(_ & e & He & _) | (data & Hb & -> & Hd)]; [discriminate | ].
  destruct Hd as [[Hf _] | (e & He & _)]; [ | discriminate].
  injection Hf as <-.
  exists subreddits, file, data. repeat split; assumption.
Qed.

(** X25: Whatever the outcome of a run, the wallpaper is set at most to a
    file that the run has just written with the data it has just
    downloaded, both calls having succeeded; before the download the run
    only creates the directory and requests listings, and after the
    setting of the wallpaper at most one notification follows. *)
Theorem wallpaper_set_after_write (options : Options.t) (r : result Link.t)
  (trace : list effect) (file : option jsstring) :
  program options = (r, trace) ->
  In (SetWallpaper file) trace ->
  exists before url data after,
    trace = before ++ Download url :: WriteFile file data
                   :: SetWallpaper file :: after
    /\ request_bytes url = Ok data
    /\ writeFileAsync file data = Ok tt
    /\ (forall e, In e before -> exists x, e = Mkdir x \/ e = Request x)
    /\ (after = [] \/ exists n, after = [Notify n]).
Proof.
  intros H Hin. apply run_cases in H.
  assert (Hbefore : forall e,
             In e (snd (ensure (Options.directory options))
                   ++ snd (load options)) ->
             exists x, e = Mkdir x \/ e = Request x).
  { intros e He. apply in_app_or in He. destruct He as [He | He].
    - apply ensure_only_mkdir in He. eauto.
    - apply load_only_requests in He. destruct He as [x ->]. eauto. }
  assert (Hfront : forall e,
             In e (snd (ensure (Options.directory options))
                   ++ snd (load options)) -> e <> SetWallpaper file).
  { intros e He ->. apply Hbefore in He.
    destruct He as (x & [He | He]); discriminate. }
  destruct H as (late & -> & [(-> & _) | (rest & -> & H)]).
  { exfalso. rewrite app_nil_r in Hin.
    apply (Hfront (SetWallpaper file)); [ | reflexivity].
    apply in_or_app. now left. }
  rewrite app_assoc in Hin |- *.
  destruct H as [(-> & _) | H].
  { exfalso. rewrite app_nil_r in Hin.
    now apply (Hfront (SetWallpaper file)). }
  destruct H as (subreddits & link & stage & last & Hl & Hc & Hd & H).
  apply in_app_or in Hin.
  destruct Hin as [Hin | Hin];
    [exfalso; now apply (Hfront (SetWallpaper file)) | ].
  apply downloadFile_cases in Hd.
  destruct H as [(-> & e & -> & _) | (file' & -> & H)].
  { exfalso.
    destruct Hd as [(-> & _) | (f & _ & [(-> & _) | (data & _ & -> & _)])];
      calls Hin. }
  destruct Hd as [(_ & e & He & _) | (f & Hu & Hd)]; [discriminate | ].
  destruct Hd as [(_ & e & He & _) | (data & Hb & -> & Hd)]; [discriminate | ].
  destruct Hd as [[Hf Hw] | (e & He & _)]; [ | discriminate].
  injection Hf as <-.
  assert (file = file') as ->.
  { destruct H as [(-> & _) | (_ & -> & _)]; calls Hin;
      now injection Hin. }
  exists (snd (ensure (Options.directory options)) ++ snd (load options)),
    (Link.url link), data.
  destruct H as [(-> & _) | (_ & -> & _)].
  - exists []. repeat split; auto.
  - exists [Notify (announce link)]. repeat split; eauto.
Qed.

(** X26: Whatever the outcome of a run, every file it writes is named by
    [path.join] of the configured directory and one [name.ext] segment
    that holds no [/] and no [\]: nothing is written elsewhere. *)
Theorem run_writes_inside_directory (options : Options.t)
  (r : result Link.t) (trace : list effect) (file : option jsstring)
  (data : list N) :
  program options = (r, trace) ->
  In (WriteFile file data) trace ->
  exists name ext,
    file = Some (path_join (Options.directory options) (name ++ 46%N :: ext))
    /\ name <> [] /\ ext <> []
    /\ existsb is_separator (name ++ 46%N :: ext) = false.
Proof.
  intros H Hin. apply run_cases in H.
  destruct H as (late & -> & H).
  apply in_app_or in Hin. destruct Hin as [Hin | Hin].
  { apply ensure_only_mkdir in Hin. discriminate. }
  destruct H as [(-> & _) | (rest & -> & H)]; [destruct Hin | ].
  apply in_app_or in Hin. destruct Hin as [Hin | Hin].
  { apply load_only_requests in Hin. destruct Hin as [x Hx]. discriminate. }
  destruct H as [(-> & _) | H]; [destruct Hin | ].
  destruct H as (subreddits & link & stage & last & Hl & Hc & Hd & H).
  apply downloadFile_cases in Hd.
  assert (Hlast : In (WriteFile file data) last).
  { destruct H as [(-> & _) | (f & _ & [(-> & _) | (_ & -> & _)])];
      [assumption | | ];
      (apply in_app_or in Hin; destruct Hin as [Hin | Hin]; [assumption | ]);
      calls Hin. }
  destruct Hd as [(-> & _) | (f & Hu & [(-> & _) | (d & _ & -> & _)])].
  - destruct Hlast.
  - calls Hlast.
  - calls Hlast. injection Hlast as <- <-.
    apply (urlFilePath_shape _ _ _ Hu).
Qed.

(** X27: When the directory is there or was created and the listings were
    loaded, but the selection is fulfilled with a link that has no URL,
    as the sentinel of an empty selection, the run is rejected with a
    TypeError raised by [urlFilePath]; nothing is downloaded, written, set
    or notified. *)
Theorem run_without_url (options : Options.t)
  (subreddits : list Subreddit.t) (link : Link.t) :
  fst (ensure (Options.directory options)) = Ok tt ->
  fst (load options) = Ok subreddits ->
  choose options subreddits = Ok link ->
  Link.url link = None ->
  program options
  = (Throw TypeError,
     snd (ensure (Options.directory options)) ++ snd (load options)).
Proof.
  intros He Hl Hc Hu. unfold run.
  destruct (ensure (Options.directory options)) as [r0 t0].
  destruct (load options) as [r1 t1].
  cbn [fst snd] in *. subst r0 r1.
  unfold io_bind at 1. unfold io_bind at 1.
  rewrite Hc. unfold lift at 1. unfold io_bind at 1.
  unfold downloadFile. rewrite Hu. cbn. now rewrite app_nil_r.
Qed.

End RunProperties.

Section MainProperties.

Import Program.

Variable unicode_lower : jsstring -> jsstring.
Variable path_join : jsstring -> jsstring -> jsstring.
Variable expandTilde : jsstring -> jsstring.
Variable home : jsstring.
Variable statAsync : jsstring -> result Stats.t.
Variable readFileAsync : jsstring -> result jsstring.
Variable JSON_parse_config : jsstring -> result UserOptions.t.
Variable mkdirAsync : jsstring -> result unit.
Variable request : jsstring -> result jsstring.
Variable JSON_parse_listing : jsstring -> result Subreddit.t.
Variable request_bytes : option jsstring -> result (list N).
Variable writeFileAsync : option jsstring -> list N -> result unit.
Variable wallpaper_set : option jsstring -> result unit.
Variable notifyAsync : Notification.t -> result unit.
Variable fromNow : jsint -> jsstring.
Variable Number_toString : Z -> jsstring.

Local Abbreviation program :=
  (run unicode_lower path_join statAsync mkdirAsync request JSON_parse_listing
       request_bytes writeFileAsync wallpaper_set notifyAsync fromNow
       Number_toString).
Local Abbreviation configure :=
  (assignConfig unicode_lower expandTilde).
Local Abbreviation entry :=
  (main unicode_lower path_join expandTilde home statAsync readFileAsync
        JSON_parse_config mkdirAsync request JSON_parse_listing request_bytes
        writeFileAsync wallpaper_set notifyAsync fromNow Number_toString).

Local Abbreviation configured config user :=
  (config = ConfigObject user
   \/ exists file data,
        readFileAsync file = Ok data
        /\ JSON_parse_config data = Ok user
        /\ ((config = ConfigString file /\ file <> [])
            \/ (file = default_config_file path_join home
                /\ (config = ConfigString [] \/ config = ConfigUndefined
                    \/ config = ConfigNull)))).

(** X28: [main] is [run] on [assignConfig(defaults, options)], and leaves
    that in [defaults], whenever it has options: the object passed, or
    the content of the configuration file read as JSON, the file being
    the string passed or, for [''], [null] and [undefined], [config.json]
    in [.reddit-wallpaper] in the home directory.  [defaults] is here the
    object as the call finds it, with what earlier calls wrote into it.
    When [main] has no options (it was given something else than a
    string, [null], [undefined] or an object, or the file cannot be read
    or is not JSON) it fails without any call made and leaves [defaults]
    as it found it. *)
Theorem main_runs_on_configuration (current : Options.t) (config : config) :
  (forall user,
     configured config user ->
     entry current config
     = (program (configure current user), configure current user))
  /\ ((forall user, ~ configured config user) ->
      exists e, entry current config = ((Throw e, []), current)).
Proof.
  assert (Hload : forall file,
             match bind (readFileAsync file) JSON_parse_config with
             | Ok user =>
                 (exists data, readFileAsync file = Ok data
                               /\ JSON_parse_config data = Ok user)
                 /\ (let (loaded, after) :=
                       loadConfig unicode_lower expandTilde readFileAsync
                         JSON_parse_config current file in
                     (io_bind loaded (fun options => program options), after))
                    = (program (configure current user),
                       configure current user)
             | Throw e =>
                 (forall data user, readFileAsync file = Ok data ->
                                    JSON_parse_config data <> Ok user)
                 /\ (let (loaded, after) :=
                       loadConfig unicode_lower expandTilde readFileAsync
                         JSON_parse_config current file in
                     (io_bind loaded (fun options => program options), after))
                    = ((Throw e, []), current)
             end).
  { intros file. unfold loadConfig.
    destruct (bind (readFileAsync file) JSON_parse_config) as [user | e] eqn:Hb.
    - split.
      + unfold bind in Hb. destruct (readFileAsync file) as [data | ];
          [eauto | discriminate].
      + unfold lift. cbn [io_bind app].
        destruct (program (configure current user)); reflexivity.
    - split; [ | reflexivity].
      intros data user Hd Hp. unfold bind in Hb. rewrite Hd in Hb.
      congruence. }
  assert (Hfile : forall file,
             (forall user,
                (exists data, readFileAsync file = Ok data
                              /\ JSON_parse_config data = Ok user) ->
                (let (loaded, after) :=
                   loadConfig unicode_lower expandTilde readFileAsync
                     JSON_parse_config current file in
                 (io_bind loaded (fun options => program options), after))
                = (program (configure current user), configure current user))
             /\ ((forall user data, readFileAsync file = Ok data ->
                                    JSON_parse_config data <> Ok user) ->
                 exists e,
                   (let (loaded, after) :=
                      loadConfig unicode_lower expandTilde readFileAsync
                        JSON_parse_config current file in
                    (io_bind loaded (fun options => program options), after))
                   = ((Throw e, []), current))).
  { intros file. specialize (Hload file).
    destruct (bind (readFileAsync file) JSON_parse_config) as [user | e].
    - destruct Hload as [(data & Hd & Hp) Heq]. split.
      + intros user' (data' & Hd' & Hp'). congruence.
      + intros Hno. elim (Hno user data Hd Hp).
    - destruct Hload as [Hno Heq]. split.
      + intros user (data & Hd & Hp). elim (Hno data user Hd Hp).
      + intros _. eauto. }
  unfold main.
  destruct config as [[ | c s] | | | user | type].
  - destruct (Hfile (default_config_file path_join home)) as [Hyes Hno]. split.
    + intros user [H | (file & data & Hd & Hp & [[H Hne] | [-> _]])];
        try discriminate; try (injection H as <-; now elim Hne).
      apply Hyes. eauto.
    + intros H. apply Hno. intros user data Hd Hp. apply (H user).
      right. exists (default_config_file path_join home), data. auto 10.
  - destruct (Hfile (c :: s)) as [Hyes Hno]. split.
    + intros user [H | (file & data & Hd & Hp & [[H _] | [_ [H | [H | H]]]])];
        try discriminate. injection H as <-. apply Hyes. eauto.
    + intros H. apply Hno. intros user data Hd Hp. apply (H user).
      right. exists (c :: s), data. repeat split; try assumption.
      left. split; [reflexivity | discriminate].
  - destruct (Hfile (default_config_file path_join home)) as [Hyes Hno]. split.
    + intros user [H | (file & data & Hd & Hp & [[H Hne] | [-> _]])];
        try discriminate; try (injection H as <-; now elim Hne).
      apply Hyes. eauto.
    + intros H. apply Hno. intros user data Hd Hp. apply (H user).
      right. exists (default_config_file path_join home), data. auto 10.
  - destruct (Hfile (default_config_file path_join home)) as [Hyes Hno]. split.
    + intros user [H | (file & data & Hd & Hp & [[H Hne] | [-> _]])];
        try discriminate; try (injection H as <-; now elim Hne).
      apply Hyes. eauto.
    + intros H. apply Hno. intros user data Hd Hp. apply (H user).
      right. exists (default_config_file path_join home), data. auto 10.
  - split.
    + intros user' [H | (file & data & _ & _ & [[H _] | [_ [H | [H | H]]]])];
        try discriminate. injection H as <-. reflexivity.
    + intros H. elim (H user). now left.
  - split.
    + intros user [H | (file & data & _ & _ & [[H _] | [_ [H | [H | H]]]])];
        discriminate.
    + intros _. exists TypeError. reflexivity.
Qed.

End MainProperties.

Lemma run_fulfilled_witness :
  exists subreddits file data,
    fst (Program.loadSubreddits page (reads_as (listing [png_data])) shuffle_top)
    = Ok subreddits
    /\ selectWallpaperLink (fun s => s) slash_join nothing_on_disk
         shuffle_top subreddits = Ok png_link
    /\ urlFilePath slash_join (Link.url png_link)
         (Options.directory shuffle_top) = Ok file
    /\ image_bytes (Link.url png_link) = Ok data
    /\ snd (example_run (listing [png_data]))
       = snd (Program.ensureDirectoryExists nothing_on_disk made
                (Options.directory shuffle_top))
         ++ snd (Program.loadSubreddits page (reads_as (listing [png_data]))
                   shuffle_top)
         ++ [Download (Link.url png_link); WriteFile file data;
             SetWallpaper file;
             Notify (Program.notification a_month_ago three_hundred png_link)].
Proof.
  apply (@run_fulfilled (fun s => s) slash_join nothing_on_disk made page
           (reads_as (listing [png_data])) image_bytes written shown notified
           a_month_ago three_hundred
           shuffle_top png_link
           (snd (example_run (listing [png_data])))).
  reflexivity.
Defined.

Lemma wallpaper_set_after_write_witness :
  exists before url data after,
    snd (example_run (listing [png_data]))
    = before ++ Download url
             :: WriteFile
                  (Some (str "/home/me/.reddit-wallpaper/Lake.PNG")) data
             :: SetWallpaper
                  (Some (str "/home/me/.reddit-wallpaper/Lake.PNG"))
             :: after
    /\ image_bytes url = Ok data
    /\ written (Some (str "/home/me/.reddit-wallpaper/Lake.PNG")) data = Ok tt
    /\ (forall e, In e before -> exists x, e = Mkdir x \/ e = Request x)
    /\ (after = [] \/ exists n, after = [Notify n]).
Proof.
  apply (@wallpaper_set_after_write (fun s => s) slash_join nothing_on_disk made page
           (reads_as (listing [png_data])) image_bytes written shown notified
           a_month_ago three_hundred
           shuffle_top
           (fst (example_run (listing [png_data])))
           (snd (example_run (listing [png_data])))
           (Some (str "/home/me/.reddit-wallpaper/Lake.PNG"))).
  - reflexivity.
  - vm_compute. tauto.
Defined.

Lemma run_writes_inside_directory_witness :
  exists name ext,
    Some (str "/home/me/.reddit-wallpaper/Lake.PNG")
    = Some (slash_join (Options.directory shuffle_top) (name ++ 46%N :: ext))
    /\ name <> [] /\ ext <> []
    /\ existsb is_separator (name ++ 46%N :: ext) = false.
Proof.
  apply (@run_writes_inside_directory (fun s => s) slash_join nothing_on_disk made page
           (reads_as (listing [png_data])) image_bytes written shown notified
           a_month_ago three_hundred
           shuffle_top
           (fst (example_run (listing [png_data])))
           (snd (example_run (listing [png_data])))
           (Some (str "/home/me/.reddit-wallpaper/Lake.PNG"))
           [137; 80; 78; 71]%N).
  - reflexivity.
  - vm_compute. tauto.
Defined.

Lemma run_without_url_witness :
  example_run (listing [])
  = (Throw TypeError,
     snd (Program.ensureDirectoryExists nothing_on_disk made
            (Options.directory shuffle_top))
     ++ snd (Program.loadSubreddits page (reads_as (listing [])) shuffle_top)).
Proof.
  apply (@run_without_url (fun s => s) slash_join nothing_on_disk made page
           (reads_as (listing [])) image_bytes written shown notified
           a_month_ago three_hundred
           shuffle_top [listing []] defaultLink);
    reflexivity.
Defined.

Lemma main_runs_on_configuration_witness :
  example_main (defaults slash_join (str "/home/me")) (ConfigObject no_options)
  = (Program.run (fun s => s) slash_join nothing_on_disk made page
       (reads_as (listing [png_data])) image_bytes written shown notified
       a_month_ago three_hundred
       (assignConfig (fun s => s) (fun s => s)
          (defaults slash_join (str "/home/me")) no_options),
     assignConfig (fun s => s) (fun s => s)
       (defaults slash_join (str "/home/me")) no_options).
Proof.
  apply (proj1 (@main_runs_on_configuration (fun s => s) slash_join
                  (fun s => s) (str "/home/me") nothing_on_disk unreadable
                  never_parsed made page (reads_as (listing [png_data]))
                  image_bytes written shown notified a_month_ago
                  three_hundred (defaults slash_join (str "/home/me"))
                  (ConfigObject no_options))
           no_options).
  left. reflexivity.
Defined.

(** A call of [main] finds what the call before it wrote into [defaults]:
    after [{ subreddits: ['earthporn'] }], a call with [{}] requests that
    subreddit and not the three of line 15; and a first call with [{}] is
    fulfilled with the link of the listing after the three requests, the
    download, the writing, the wallpaper and the notification. *)
Example main_keeps_earlier_options :
  requested
    (snd (fst (example_main
                 (snd (example_main (defaults slash_join (str "/home/me"))
                         (ConfigObject one_subreddit)))
                 (ConfigObject no_options))))
  = [str "https://reddit.com/r/earthporn/top.json?t=month"]
  /\ fst (example_main (defaults slash_join (str "/home/me"))
            (ConfigObject no_options))
     = (Ok png_link,
        [Mkdir (str "/home/me/.reddit-wallpaper");
         Request (str "https://reddit.com/r/wallpaper/top.json?t=month");
         Request (str "https://reddit.com/r/wallpapers/top.json?t=month");
         Request (str "https://reddit.com/r/castles/top.json?t=month");
         Download (Some (str "http://i.imgur.com/Lake.PNG"));
         WriteFile (Some (str "/home/me/.reddit-wallpaper/Lake.PNG"))
           [137; 80; 78; 71]%N;
         SetWallpaper (Some (str "/home/me/.reddit-wallpaper/Lake.PNG"));
         Notify (Program.notification a_month_ago three_hundred png_link)]).
Proof. vm_compute. split; reflexivity. Qed.
